(** * disk_cleaner: a shallow embedding of the scanner core and its properties

    The development follows [disk_cleaner.py]: the path classifier
    ([is_path_protected], [is_safe_to_delete], [is_protected]), the recursive
    scanner ([scan_directory], [scan_with_progress]), the duplicate filter and
    ranking of [analyze], the threshold parser of [analyze] and [delete_item].

    Python values are modelled as follows: [str] as [string] (one byte per
    character, ASCII case mapping), [int] as [Z], tuples of the result list as
    the record [Entry], the insertion-ordered [dict] of [analyze] as an
    association list, the file system as a finite tree. *)

From Stdlib Require Import ZArith List Bool Ascii String Lia Permutation Sorted QArith.
From Stdlib Require Import Decimal DecimalString DecimalN Qround Qabs Lqa.
Import ListNotations.

Local Open Scope string_scope.
Local Open Scope Z_scope.

Set Warnings "-register-all".

(** ** Python string primitives *)

Module Py.

Definition ascii_lower (c : ascii) : ascii :=
  let n := nat_of_ascii c in
  if (Nat.leb 65 n && Nat.leb n 90)%bool then ascii_of_nat (n + 32) else c.

Definition ascii_upper (c : ascii) : ascii :=
  let n := nat_of_ascii c in
  if (Nat.leb 97 n && Nat.leb n 122)%bool then ascii_of_nat (n - 32) else c.

(** [s.lower()] and [s.upper()] on ASCII text. A character outside ASCII is
    left as it is, whereas Python maps a few of them to ASCII letters (the
    dotless i to I under [upper], the Kelvin sign to k under [lower]); a
    statement that applies [upper] to an arbitrary text assumes [is_ascii]. *)
Fixpoint lower (s : string) : string :=
  match s with
  | EmptyString => EmptyString
  | String c s' => String (ascii_lower c) (lower s')
  end.

Fixpoint upper (s : string) : string :=
  match s with
  | EmptyString => EmptyString
  | String c s' => String (ascii_upper c) (upper s')
  end.

Fixpoint is_ascii (s : string) : bool :=
  match s with
  | EmptyString => true
  | String c s' => Nat.ltb (nat_of_ascii c) 128 && is_ascii s'
  end.

(** [s.startswith(p)] *)
Definition startswith (s p : string) : bool := String.prefix p s.

(** [needle in hay] *)
Fixpoint contains (needle hay : string) : bool :=
  String.prefix needle hay ||
  match hay with
  | EmptyString => false
  | String _ hay' => contains needle hay'
  end.

(** [s[n:]] and [s[:n]] for [n >= 0] *)
Fixpoint drop (n : nat) (s : string) : string :=
  match n, s with
  | O, _ => s
  | S n', String _ s' => drop n' s'
  | S _, EmptyString => EmptyString
  end.

Fixpoint take (n : nat) (s : string) : string :=
  match n, s with
  | S n', String c s' => String c (take n' s')
  | _, _ => EmptyString
  end.

(** [s[-n:]] and [s[:-n]] for [n > 0]: a negative index counts from the
    end and is clipped at the start of the string. *)
Definition last_n (n : nat) (s : string) : string :=
  drop (String.length s - n) s.

Definition but_last_n (n : nat) (s : string) : string :=
  take (String.length s - n) s.

(** [s.endswith(suf)] *)
Definition endswith (s suf : string) : bool :=
  Nat.leb (String.length suf) (String.length s) &&
  String.eqb (last_n (String.length suf) s) suf.

(** [s.find(c, start)] for a one-character [c]: [None] stands for -1. *)
Fixpoint find_from (p : ascii -> bool) (start : nat) (s : string) : option nat :=
  match s with
  | EmptyString => None
  | String c s' =>
      match start with
      | O => if p c then Some O else option_map S (find_from p O s')
      | S k => option_map S (find_from p k s')
      end
  end.

(** [s.replace(a, b)] for one-character [a] and [b] *)
Fixpoint replace_char (a b : ascii) (s : string) : string :=
  match s with
  | EmptyString => EmptyString
  | String c s' => String (if Ascii.eqb c a then b else c) (replace_char a b s')
  end.

(** [s.split(sep)] for a one-character [sep]: the pieces between
    separators, empty pieces included. *)
Fixpoint split_acc (sep : ascii) (cur : string) (s : string) : list string :=
  match s with
  | EmptyString => [cur]
  | String c s' =>
      if Ascii.eqb c sep then cur :: split_acc sep EmptyString s'
      else split_acc sep (cur ++ String c EmptyString) s'
  end.

Definition split (sep : ascii) (s : string) : list string :=
  split_acc sep EmptyString s.

(** [x in l] for a list or set of strings *)
Definition mem (x : string) (l : list string) : bool :=
  existsb (String.eqb x) l.

End Py.

(** ** pathlib and os.path *)

(** [nt] is [os.name == 'nt']: it selects the Windows or the POSIX flavour of
    [pathlib.Path] and of [os.path], and the way hidden entries are
    recognised. *)

Module OsPath.

Definition backslash : ascii := "\"%char.
Definition slash : ascii := "/"%char.
Definition colon : ascii := ":"%char.

Definition sep (nt : bool) : ascii := if nt then backslash else slash.

Definition is_sep (nt : bool) (c : ascii) : bool :=
  Ascii.eqb c (sep nt) || (nt && Ascii.eqb c slash).

(** [ntpath.splitroot] and [posixpath.splitroot]: drive, root and the rest. *)
Definition nt_splitroot (p : string) : string * string * string :=
  let normp := Py.replace_char slash backslash p in
  let is_bs c := Ascii.eqb c backslash in
  if String.eqb (Py.take 1 normp) "\" then
    if String.eqb (Py.take 1 (Py.drop 1 normp)) "\" then
      let start :=
        if String.eqb (Py.upper (Py.take 8 normp)) "\\?\UNC\" then 8%nat else 2%nat in
      match Py.find_from is_bs start normp with
      | None => (p, "", "")
      | Some index =>
          match Py.find_from is_bs (index + 1) normp with
          | None => (p, "", "")
          | Some index2 =>
              (Py.take index2 p, Py.take 1 (Py.drop index2 p), Py.drop (index2 + 1) p)
          end
      end
    else ("", Py.take 1 p, Py.drop 1 p)
  else if String.eqb (Py.take 1 (Py.drop 1 normp)) ":" then
    if String.eqb (Py.take 1 (Py.drop 2 normp)) "\" then
      (Py.take 2 p, Py.take 1 (Py.drop 2 p), Py.drop 3 p)
    else (Py.take 2 p, "", Py.drop 2 p)
  else ("", "", p).

Definition posix_splitroot (p : string) : string * string * string :=
  if negb (String.eqb (Py.take 1 p) "/") then ("", "", p)
  else if negb (String.eqb (Py.take 1 (Py.drop 1 p)) "/")
          || String.eqb (Py.take 1 (Py.drop 2 p)) "/"
       then ("", "/", Py.drop 1 p)
       else ("", Py.take 2 p, Py.drop 2 p).

Definition splitroot (nt : bool) (p : string) : string * string * string :=
  if nt then nt_splitroot p else posix_splitroot p.

(** [os.path.join(path, name)] as [os.scandir] uses it for [entry.path]:
    [name] is a bare entry name, so it is appended after one separator
    unless [path] already ends in one (or in a drive colon on Windows). *)
Definition join (nt : bool) (path name : string) : string :=
  match Py.last_n 1 path with
  | String c EmptyString =>
      if is_sep nt c || (nt && Ascii.eqb c colon)
      then path ++ name
      else path ++ String (sep nt) name
  | _ => name
  end.

End OsPath.

Module Pathlib.

(** [PurePath._parse_path]: drive, root and the list of segments, empty
    and "." segments dropped. *)
Definition parse_path (nt : bool) (path : string) : string * string * list string :=
  match path with
  | EmptyString => ("", "", [])
  | _ =>
      let path := if nt then Py.replace_char OsPath.slash OsPath.backslash path else path in
      let '(drv, root, rel) := OsPath.splitroot nt path in
      let sepS := String (OsPath.sep nt) EmptyString in
      let root :=
        if (String.eqb root "" && Py.startswith drv sepS && negb (Py.endswith drv sepS))%bool
        then
          let drv_parts := Py.split (OsPath.sep nt) drv in
          if (Nat.eqb (List.length drv_parts) 4 &&
              negb (Py.contains (nth 2 drv_parts "") "?."))%bool then sepS
          else if Nat.eqb (List.length drv_parts) 6 then sepS
          else root
        else root in
      let parsed :=
        filter (fun x => negb (String.eqb x "") && negb (String.eqb x "."))
               (Py.split (OsPath.sep nt) rel) in
      (drv, root, parsed)
  end.

(** [Path(path).parts] *)
Definition parts (nt : bool) (path : string) : list string :=
  let '(drv, root, tail) := parse_path nt path in
  if (String.eqb drv "" && String.eqb root "")%bool then tail
  else (drv ++ root) :: tail.

(** [Path(path).name] *)
Definition name (nt : bool) (path : string) : string :=
  let '(_, _, tail) := parse_path nt path in
  last tail "".

End Pathlib.


(** ** Classification tables *)

(** [SPACE_HOGS]: the dict literal, in insertion order. *)
Definition SPACE_HOGS : list (string * string) :=
  [ ("node_modules", "NPM packages (usually safe to delete if not actively developing)");
    (".conda", "Conda environments (safe if not needed)");
    (".venv", "Python virtual environments (safe if not needed)");
    (".cache", "Cache files (usually safe to delete)");
    (".npm", "NPM cache (safe to delete)");
    ("temp", "Temporary files (safe to delete)");
    ("tmp", "Temporary files (safe to delete)");
    (".git", "Git repositories (contains version history, be careful)");
    ("build", "Build artifacts (usually safe if not actively building)");
    ("dist", "Distribution files (usually safe if not needed)");
    ("logs", "Log files (usually safe to delete old logs)");
    (".nuget", "NuGet package cache (safe if not actively developing)");
    (".gradle", "Gradle build system cache (safe if not actively developing)");
    (".m2", "Maven repository (safe if not actively developing)");
    ("AppData", "Application data (may contain important settings)") ].

(** [PROTECTED_FOLDERS]: a set literal; only membership and any-match
    iteration are used, so the order of the list is immaterial. *)
Definition PROTECTED_FOLDERS : list string :=
  [ "Windows"; "Program Files"; "Program Files (x86)"; "ProgramData";
    "System32"; "System Volume Information"; "$Recycle.Bin"; "$WINDOWS.~BT";
    "pagefile.sys"; "hiberfil.sys"; "swapfile.sys"; "bootmgr" ].

(** ** PathClassifier *)

Section Classifier.

Variable nt : bool.

(** [is_path_protected]: [part in PROTECTED_FOLDERS] for some part. *)
Definition is_path_protected (path : string) : bool :=
  existsb (fun part => Py.mem part PROTECTED_FOLDERS) (Pathlib.parts nt path).

(** The [for pattern, description in SPACE_HOGS.items()] loop of
    [is_safe_to_delete], returning at the first matching pattern. *)
Fixpoint space_hog_loop (name : string) (items : list (string * string))
  : bool * string :=
  match items with
  | [] => (false, "Unknown")
  | (pattern, description) :: rest =>
      if String.eqb name pattern || String.eqb (Py.lower name) (Py.lower pattern)
      then
        if Py.contains "safe" (Py.lower description)
        then (true, description)
        else (false, description)
      else space_hog_loop name rest
  end.

Definition is_safe_to_delete (path : string) : bool * string :=
  if is_path_protected path then (false, "System protected")
  else space_hog_loop (Pathlib.name nt path) SPACE_HOGS.

End Classifier.

(** [is_protected]: the check used when a row is displayed and before a
    deletion is confirmed. It works on the lower-cased path string. *)
Definition is_protected (path : string) : bool :=
  let path_lower := Py.lower path in
  existsb
    (fun protected =>
       let protected_lower := Py.lower protected in
       Py.contains ("\" ++ protected_lower ++ "\") path_lower
       || Py.endswith path_lower ("\" ++ protected_lower)
       || Py.contains ("/" ++ protected_lower ++ "/") path_lower
       || Py.endswith path_lower ("/" ++ protected_lower))
    PROTECTED_FOLDERS.

(** The case-insensitive reading of a protected segment: some part of the
    path equals a protected name once both are lower-cased. *)
Definition has_protected_segment_ci (nt : bool) (path : string) : bool :=
  existsb
    (fun part => Py.mem (Py.lower part) (map Py.lower PROTECTED_FOLDERS))
    (Pathlib.parts nt path).


(** ** Scanner *)

(** One tuple [(path, size, is_file, is_safe, reason)] of the result list. *)
Record Entry : Type := mkEntry {
  e_path : string;
  e_size : Z;
  e_is_file : bool;
  e_is_safe : bool;
  e_reason : string
}.

(** The file system beneath the scanned root. A file carries its name, bit 2
    of [st_file_attributes] and [st_size]; a directory carries its name, the
    same attribute bit, whether [os.scandir] succeeds on it (otherwise it
    raises [PermissionError] or [FileNotFoundError]) and its listing in
    enumeration order. Entries whose [stat] raises are skipped by the
    [continue] of the scan loop and are left out of the listing. *)
Inductive node : Type :=
| File (name : string) (attr_hidden : bool) (size : Z)
| Dir (name : string) (attr_hidden : bool) (readable : bool) (children : list node).

Definition node_name (n : node) : string :=
  match n with
  | File name _ _ => name
  | Dir name _ _ _ => name
  end.

Definition node_attr_hidden (n : node) : bool :=
  match n with
  | File _ a _ => a
  | Dir _ a _ _ => a
  end.

Definition node_is_file (n : node) : bool :=
  match n with
  | File _ _ _ => true
  | Dir _ _ _ _ => false
  end.

(** Induction over the file system tree, with the hypothesis available for
    every member of a directory's listing. *)
Section NodeInduction.

Variable P : node -> Prop.
Hypothesis HFile : forall name a size, P (File name a size).
Hypothesis HDir :
  forall name a readable listing, Forall P listing -> P (Dir name a readable listing).

Fixpoint node_tree_ind (n : node) : P n :=
  match n with
  | File name a size => HFile name a size
  | Dir name a readable listing =>
      HDir name a readable listing
           ((fix members (l : list node) : Forall P l :=
               match l with
               | [] => Forall_nil P
               | c :: l' => Forall_cons c (node_tree_ind c) (members l')
               end) listing)
  end.

End NodeInduction.

(** [sum(size for _, size, _, _, _ in results)] *)
Definition sum_sizes (results : list Entry) : Z :=
  fold_right Z.add 0 (map e_size results).

Section Scanner.

Variable nt : bool.
(** [os.path.abspath], which depends on the working directory. *)
Variable abspath : string -> string.

Definition get_long_path_name (path : string) : string :=
  if Py.startswith path "\\?\" then path
  else
    let abs_path := abspath path in
    if Nat.leb 260 (String.length abs_path) then "\\?\" ++ abs_path else abs_path.

(** [is_hidden] of a listed entry. *)
Definition entry_is_hidden (c : node) : bool :=
  if nt then node_attr_hidden c else Py.startswith (node_name c) ".".

Definition classified (path : string) (size : Z) (is_file : bool) : Entry :=
  let '(is_safe, reason) := is_safe_to_delete nt path in
  mkEntry path size is_file is_safe reason.

(** The branch for a root that is a regular file. *)
Definition scan_file (path : string) (attr_hidden : bool) (size : Z)
           (only_hidden : bool) (threshold : Z) : list Entry :=
  if threshold <=? size then
    let is_hidden := if nt then attr_hidden else false in
    if negb only_hidden || is_hidden then [classified path size true] else []
  else [].

Section Loops.

Variables (path : string) (only_hidden : bool) (threshold : Z).

Definition skipped (c : node) : bool := only_hidden && negb (entry_is_hidden c).

(** The [os.scandir] loop: entries appended to [results] for the files. *)
Definition scandir_results (listing : list node) : list Entry :=
  flat_map
    (fun c =>
       if skipped c then []
       else match c with
            | File name _ file_size =>
                if threshold <=? file_size
                then [classified (OsPath.join nt path name) file_size true]
                else []
            | Dir _ _ _ _ => []
            end)
    listing.

(** [total_size] after the [os.scandir] loop. *)
Definition scandir_total (listing : list node) : Z :=
  fold_right
    (fun c acc =>
       if skipped c then acc
       else match c with
            | File _ _ file_size => file_size + acc
            | Dir _ _ _ _ => acc
            end)
    0 listing.

(** [items_to_scan] after the [os.scandir] loop, each path with the
    directory it names. *)
Definition items_to_scan (listing : list node) : list (string * node) :=
  flat_map
    (fun c =>
       if skipped c then []
       else match c with
            | File _ _ _ => []
            | Dir name _ _ _ => [(OsPath.join nt path name, c)]
            end)
    listing.

(** One round of the [for item_path in items_to_scan] loop, given the
    result of the recursive call. *)
Definition subdir_round (item_path : string) (sub_results : list Entry)
  : list Entry :=
  let sub_size := sum_sizes sub_results in
  sub_results ++
  (if threshold <=? sub_size then [classified item_path sub_size false] else []).

End Loops.

(** [scan_directory]. The second loop runs over the listing and acts on
    the members of [items_to_scan]; see [scan_directory_items_to_scan]. *)
Fixpoint scan_directory (path : string) (n : node) (only_hidden : bool)
         (threshold : Z) {struct n} : list Entry :=
  let path := get_long_path_name path in
  match n with
  | File _ attr_hidden size => scan_file path attr_hidden size only_hidden threshold
  | Dir _ _ readable listing =>
      if readable then
        scandir_results path only_hidden threshold listing ++
        flat_map
          (fun c =>
             match c with
             | Dir name _ _ _ =>
                 if skipped only_hidden c then []
                 else
                   let item_path := OsPath.join nt path name in
                   subdir_round threshold item_path
                     (scan_directory item_path c only_hidden threshold)
             | File _ _ _ => []
             end)
          listing
      else []
  end.

(** The value of the local [total_size] when [scan_directory] returns from
    a directory. *)
Definition total_size (path : string) (n : node) (only_hidden : bool)
           (threshold : Z) : Z :=
  let path := get_long_path_name path in
  match n with
  | File _ _ _ => 0
  | Dir _ _ readable listing =>
      if readable then
        scandir_total only_hidden listing +
        fold_right
          (fun it acc =>
             sum_sizes (scan_directory (fst it) (snd it) only_hidden threshold) + acc)
          0 (items_to_scan path only_hidden listing)
      else 0
  end.

(** [scan_with_progress], the closure of [analyze]: the same walk, with
    the counter [items_scanned] threaded through. [update_progress] is
    called once for a root file and once for every listed entry. *)
Fixpoint scan_with_progress (path : string) (n : node) (only_hidden : bool)
         (threshold : Z) (items_scanned : Z) {struct n} : list Entry * Z :=
  let path := get_long_path_name path in
  match n with
  | File _ attr_hidden size =>
      (scan_file path attr_hidden size only_hidden threshold, items_scanned + 1)
  | Dir _ _ readable listing =>
      if readable then
        fold_left
          (fun st c =>
             match c with
             | Dir name _ _ _ =>
                 if skipped only_hidden c then st
                 else
                   let item_path := OsPath.join nt path name in
                   let '(sub_results, count) :=
                     scan_with_progress item_path c only_hidden threshold (snd st) in
                   ((fst st ++ subdir_round threshold item_path sub_results)%list, count)
             | File _ _ _ => st
             end)
          listing
          (scandir_results path only_hidden threshold listing,
           items_scanned + Z.of_nat (List.length listing))
      else ([], items_scanned)
  end.

(** The bytes of all files found beneath a node during the walk, whatever
    the threshold: what the specification calls the size of a directory. *)
Fixpoint walked_bytes (n : node) (only_hidden : bool) {struct n} : Z :=
  match n with
  | File _ _ size => size
  | Dir _ _ readable listing =>
      if readable then
        fold_right
          (fun c acc =>
             if skipped only_hidden c then acc else walked_bytes c only_hidden + acc)
          0 listing
      else 0
  end.

(** The number of [update_progress] calls of one [scan_with_progress] for
    the entries of the model: a root file, and every entry of a listing.
    Entries whose [stat] raises are not part of a listing; the code counts
    them too, so its counter can be larger on a tree that has such entries. *)
Fixpoint items_visited (n : node) (only_hidden : bool) {struct n} : Z :=
  match n with
  | File _ _ _ => 1
  | Dir _ _ readable listing =>
      if readable then
        Z.of_nat (List.length listing) +
        fold_right
          (fun c acc =>
             match c with
             | Dir _ _ _ _ =>
                 if skipped only_hidden c then acc
                 else items_visited c only_hidden + acc
             | File _ _ _ => acc
             end)
          0 listing
      else 0
  end.

End Scanner.

(** Two small trees: a file of 5 bytes two directories deep, and a
    directory with a file of 3 bytes and a file of 10 bytes. *)
Definition deep_dir : node :=
  Dir "d" false true [Dir "e" false true [File "f" false 5]].

Definition deep_tree : node := Dir "r" false true [deep_dir].

Definition flat_dir : node :=
  Dir "d" false true [File "a" false 3; File "b" false 10].

Definition flat_tree : node := Dir "r" false true [flat_dir].


(** ** Reconciler: the duplicate filter and the ranking of [analyze] *)

(** [path_dict]: a Python dict keeps its keys in insertion order, and an
    assignment to a present key keeps the key's position. *)
Definition path_dict : Type := list (string * Entry).

Fixpoint dict_get (k : string) (d : path_dict) : option Entry :=
  match d with
  | [] => None
  | (k', v) :: d' => if String.eqb k k' then Some v else dict_get k d'
  end.

Fixpoint dict_set (k : string) (v : Entry) (d : path_dict) : path_dict :=
  match d with
  | [] => [(k, v)]
  | (k', v') :: d' =>
      if String.eqb k k' then (k', v) :: d' else (k', v') :: dict_set k v d'
  end.

Definition dict_values (d : path_dict) : list Entry := map snd d.

(** Keys are unique and every value is stored under its own path. *)
Definition dict_wf (d : path_dict) : Prop :=
  NoDup (map fst d) /\ Forall (fun kv => e_path (snd kv) = fst kv) d.

(** The body of [for result in results]. *)
Definition reconcile_step (d : path_dict) (result : Entry) : path_dict :=
  let path := e_path result in
  match dict_get path d with
  | None => dict_set path result d
  | Some current =>
      if e_size current <? e_size result then dict_set path result d else d
  end.

Definition reconcile (results : list Entry) : path_dict :=
  fold_left reconcile_step results [].

Definition filtered_results (results : list Entry) : list Entry :=
  dict_values (reconcile results).

(** [e] is the entry of its path that the filter keeps: the first one, in
    the order of [results], among those of largest size. *)
Definition first_largest (results : list Entry) (e : Entry) : Prop :=
  exists l1 l2,
    results = (l1 ++ e :: l2)%list /\
    (forall x, In x l1 -> e_path x = e_path e -> e_size x < e_size e) /\
    (forall x, In x l2 -> e_path x = e_path e -> e_size x <= e_size e).

(** The reconciliation as the specification words it: on equal sizes the
    entry seen last replaces the one kept so far. *)
Definition reconcile_step_last_wins (d : path_dict) (result : Entry) : path_dict :=
  let path := e_path result in
  match dict_get path d with
  | None => dict_set path result d
  | Some current =>
      if e_size current <=? e_size result then dict_set path result d else d
  end.

Definition filtered_results_last_wins (results : list Entry) : list Entry :=
  dict_values (fold_left reconcile_step_last_wins results []).

(** [list.sort(key=lambda x: x[1], reverse=True)]: the built-in sort is
    stable, also under [reverse=True]. It is modelled by a stable insertion
    sort; [sort_by_size_unique] shows that every stable descending sort
    returns the same list. *)
Fixpoint insert_desc (x : Entry) (l : list Entry) : list Entry :=
  match l with
  | [] => [x]
  | y :: l' => if e_size x <? e_size y then y :: insert_desc x l' else x :: l
  end.

Definition sort_by_size (l : list Entry) : list Entry :=
  fold_right insert_desc [] l.

(** Descending order of sizes, and the sub-list of the entries of one
    size, by which stability is stated. *)
Definition size_desc (a b : Entry) : Prop := e_size b <= e_size a.

Definition of_size (k : Z) (l : list Entry) : list Entry :=
  filter (fun e => e_size e =? k) l.

(** [l[:top]]: a negative bound counts from the end of the list. *)
Definition slice_to (l : list Entry) (top : Z) : list Entry :=
  if top <? 0
  then firstn (Z.to_nat (Z.max 0 (Z.of_nat (List.length l) + top))) l
  else firstn (Z.to_nat top) l.

Definition top_results (results : list Entry) (top : Z) : list Entry :=
  slice_to (sort_by_size (filtered_results results)) top.

(** ** The threshold parser of [analyze] *)

Definition DEFAULT_THRESHOLD : Z := 1024 * 1024.

Definition units : list (string * Z) :=
  [ ("b", 1); ("kb", 1024); ("mb", 1024 ^ 2); ("gb", 1024 ^ 3); ("tb", 1024 ^ 4) ].

Fixpoint units_get (k : string) (u : list (string * Z)) : option Z :=
  match u with
  | [] => None
  | (k', v) :: u' => if String.eqb k k' then Some v else units_get k u'
  end.

Definition digit_value (c : ascii) : option Z :=
  let n := nat_of_ascii c in
  if (Nat.leb 48 n && Nat.leb n 57)%bool then Some (Z.of_nat (n - 48)) else None.

(** Digits read as a number, with the count of digits. *)
Fixpoint read_digits (s : string) (acc : Z) (count : nat) : option (Z * nat) :=
  match s with
  | EmptyString => Some (acc, count)
  | String c s' =>
      match digit_value c with
      | Some d => read_digits s' (10 * acc + d) (S count)
      | None => None
      end
  end.

(** [float(s)] on plain decimal literals: an optional sign, digits and an
    optional fraction. The value is kept as an exact rational; binary64
    agrees with it wherever the literal and the later product are integers
    below 2^53. [None] stands for [ValueError] and for the literal forms
    left out here (exponents, inf, nan, underscores, blanks). *)
Definition float_unsigned (s : string) : option Q :=
  match Py.find_from (fun c => Ascii.eqb c ".") 0 s with
  | None =>
      match read_digits s 0 0 with
      | Some (n, S _) => Some (inject_Z n)
      | _ => None
      end
  | Some i =>
      match read_digits (Py.take i s) 0 0, read_digits (Py.drop (S i) s) 0 0 with
      | Some (n, c1), Some (f, c2) =>
          if Nat.eqb (c1 + c2) 0 then None
          else Some (Qmake (n * 10 ^ Z.of_nat c2 + f) (Z.to_pos (10 ^ Z.of_nat c2)))
      | _, _ => None
      end
  end.

Definition float (s : string) : option Q :=
  match s with
  | String "-" s' => option_map Qopp (float_unsigned s')
  | String "+" s' => float_unsigned s'
  | _ => float_unsigned s
  end.

(** [int(x)]: truncation toward zero. *)
Definition int_of (x : Q) : Z := Z.quot (Qnum x) (Zpos (Qden x)).

(** The block [# Parse threshold size] of [analyze]. [None] stands for an
    exception ([ValueError] from [float]). *)
Definition parse_threshold (threshold : string) : option Z :=
  match threshold with
  | EmptyString => Some DEFAULT_THRESHOLD
  | _ =>
      let threshold := Py.lower threshold in
      let '(value_text, threshold_unit) :=
        if Py.mem (Py.last_n 2 threshold) (map fst units) then
          (Py.but_last_n 2 threshold, Some (Py.last_n 2 threshold))
        else if Py.mem (Py.last_n 1 threshold) (map (fun k => Py.take 1 (fst k)) units) then
          (Py.but_last_n 1 threshold,
           hd_error (filter (fun k => Py.startswith k (Py.last_n 1 threshold))
                            (map fst units)))
        else (threshold, Some "b") in
      match float value_text, threshold_unit with
      | Some threshold_value, Some u =>
          match units_get u units with
          | Some factor => Some (int_of (threshold_value * inject_Z factor))
          | None => None
          end
      | _, _ => None
      end
  end.

(** ** Deleter *)

(** What [delete_item] meets: what the path is, how the removal
    ([os.remove] or [shutil.rmtree]) ends, what [is_admin()] returns and
    what the user answers to [Confirm.ask]. *)
Inductive path_kind : Type := IsFile | IsDir | Neither.

Inductive removal : Type :=
| RemovalOk
| RaisesPermissionError
| RaisesOther (message : string).

Record world : Type := mkWorld {
  w_kind : path_kind;
  w_removal : removal;
  w_is_admin : bool;
  w_confirm : bool
}.

Inductive event : Type :=
| EvRemove (path : string)
| EvRmtree (path : string)
| EvPrintPermissionDenied (path : string)
| EvPrintError (path : string) (message : string)
| EvConfirmAsk
| EvShellExecuteRunas.

(** A call returns a value or leaves through [sys.exit]. *)
Inductive outcome : Type :=
| Returned (value : bool)
| Exited (code : Z).

(** [run_as_admin]: both branches call [ShellExecuteW] with the verb
    "runas" and then [sys.exit(0)]. *)
Definition run_as_admin : list event * outcome :=
  ([EvShellExecuteRunas], Exited 0).

Section Deleter.

Variable abspath : string -> string.

Definition delete_item (w : world) (path : string) : list event * outcome :=
  let path := get_long_path_name abspath path in
  let handle (attempt : event) : list event * outcome :=
    match w_removal w with
    | RemovalOk => ([attempt], Returned true)
    | RaisesPermissionError =>
        if negb (w_is_admin w) then
          if w_confirm w then
            let '(evs, out) := run_as_admin in
            (([attempt; EvPrintPermissionDenied path; EvConfirmAsk] ++ evs)%list, out)
          else ([attempt; EvPrintPermissionDenied path; EvConfirmAsk], Returned false)
        else ([attempt; EvPrintPermissionDenied path], Returned false)
    | RaisesOther message =>
        ([attempt; EvPrintError path message], Returned false)
    end in
  match w_kind w with
  | IsFile => handle (EvRemove path)
  | IsDir => handle (EvRmtree path)
  | Neither => ([], Returned false)
  end.

Definition attempts_elevation (r : list event * outcome) : Prop :=
  In EvShellExecuteRunas (fst r).


End Deleter.


(** ** Display helpers of [analyze] *)

(** [str(n)] for a non-negative integer. *)
Definition str_of_Z (n : Z) : string :=
  NilZero.string_of_uint (N.to_uint (Z.to_N n)).

Definition size_names : list string := ["B"; "KB"; "MB"; "GB"; "TB"; "PB"].

(** The [while] loop of [format_size]. [size_bytes] is kept as an exact
    rational: binary64 agrees with it for integers below 2^53, since every
    division is by a power of two. The loop ends after at most
    [len(size_names) - 1] rounds, which is the fuel [format_size] gives it. *)
Fixpoint format_size_loop (fuel : nat) (size_bytes : Q) (i : nat) : Q * nat :=
  match fuel with
  | O => (size_bytes, i)
  | S fuel' =>
      if Qle_bool 1024 size_bytes && Nat.ltb i (List.length size_names - 1)
      then format_size_loop fuel' (size_bytes / 1024) (S i)
      else (size_bytes, i)
  end.

(** Rounding to the nearest integer, ties to even. *)
Definition round_half_even (x : Q) : Z :=
  let f := Qfloor x in
  match Qcompare (x - inject_Z f) (1 # 2) with
  | Lt => f
  | Gt => f + 1
  | Eq => if Z.even f then f else f + 1
  end.

Definition digit_char (d : Z) : ascii := ascii_of_nat (48 + Z.to_nat d).

(** The format [{x:.2f}]: the sign, the integer part, a point and two
    decimals, correctly rounded. Negative values occur for negative integers
    only, which the loop leaves as they are. *)
Definition format_2f (x : Q) : string :=
  let hundredths := round_half_even (Qabs x * 100) in
  (if Qle_bool 0 x then "" else "-") ++
  str_of_Z (hundredths / 100) ++ "." ++
  String (digit_char ((hundredths mod 100) / 10))
         (String (digit_char (hundredths mod 10)) "").

Definition format_size_scaled (size_bytes : Z) : Q * nat :=
  format_size_loop (List.length size_names - 1) (inject_Z size_bytes) 0.

Definition format_size (size_bytes : Z) : string :=
  if size_bytes =? 0 then "0B"
  else
    let '(value, i) := format_size_scaled size_bytes in
    format_2f value ++ nth i size_names "".

(** A plain path segment: not empty, not ".", and free of separators. *)
Fixpoint no_sep (s : string) : bool :=
  match s with
  | EmptyString => true
  | String c s' => negb (OsPath.is_sep true c) && no_sep s'
  end.

Definition plain_segment (s : string) : bool :=
  negb (String.eqb s "") && negb (String.eqb s ".") && no_sep s.

(** A drive-absolute Windows path: a drive letter, a colon, a backslash and
    the segments joined by backslashes, as [os.path.abspath] and
    [os.scandir] produce it. *)
Definition drive_path (drive : ascii) (segments : list string) : string :=
  String drive (":\" ++ String.concat "\" segments).

(** Texts made of decimal digits only. *)
Definition is_digit (c : ascii) : bool :=
  match digit_value c with
  | Some _ => true
  | None => false
  end.

Fixpoint digits_only (s : string) : bool :=
  match s with
  | EmptyString => true
  | String c s' => is_digit c && digits_only s'
  end.

(** The size of unit number [k]: 1024 to the power [k]. *)
Definition pow1024 (k : nat) : Q := inject_Z (1024 ^ Z.of_nat k).

(** The cut of a long [display_path] in the table loop. *)
Definition truncate_display (display_path : string) : string :=
  if Nat.ltb 50 (String.length display_path)
  then "..." ++ Py.last_n 47 display_path
  else display_path.

(** [total_scan_size] and [displayed_size] of the summary. *)
Definition total_scan_size (results : list Entry) : Z :=
  sum_sizes (sort_by_size (filtered_results results)).

Definition displayed_size (results : list Entry) (top : Z) : Z :=
  sum_sizes (top_results results top).




(** ** The deletion loop of [analyze] *)

(** One line typed by the user: [q], a text that [int] rejects with
    [ValueError], or a number. *)
Inductive choice : Type :=
| ChoiceQuit
| ChoiceNotANumber
| ChoiceNumber (n : Z).

Inductive prompt : Type :=
| PromptProtected
| PromptUnsafe (reason : string)
| PromptPlain (path : string).

Inductive ui_event : Type :=
| UiConfirm (p : prompt)
| UiDeleteItem (path : string) (events : list event)
| UiDeleted (path : string)
| UiFailed (path : string)
| UiInvalidNumber
| UiNotANumber.

(** A round ends with [continue] or the end of the body, with [break], or
    with the process leaving through [sys.exit]. *)
Inductive round_result : Type :=
| RoundContinue (top_results : list Entry)
| RoundBreak (top_results : list Entry)
| RoundExit (code : Z).

(** [l.pop(index)] for [0 <= index < len(l)]. *)
Definition list_pop (index : nat) (l : list Entry) : list Entry :=
  firstn index l ++ skipn (S index) l.

(** The prompt the round shows for an item. *)
Definition prompt_for (item : Entry) : prompt :=
  if is_protected (e_path item) then PromptProtected
  else if negb (e_is_safe item) then PromptUnsafe (e_reason item)
  else PromptPlain (e_path item).

(** One round of the [while True] loop of the deletion mode. [answer] is
    the user's reply to the confirmation of the round, [w] what
    [delete_item] meets. *)
Definition deletion_round (abspath : string -> string) (w : world) (answer : bool)
           (top_results : list Entry) (c : choice) : list ui_event * round_result :=
  match c with
  | ChoiceQuit => ([], RoundBreak top_results)
  | ChoiceNotANumber => ([UiNotANumber], RoundContinue top_results)
  | ChoiceNumber n =>
      let index := n - 1 in
      if (0 <=? index) && (index <? Z.of_nat (List.length top_results)) then
        match nth_error top_results (Z.to_nat index) with
        | Some item =>
            let item_path := e_path item in
            if negb answer then ([UiConfirm (prompt_for item)], RoundContinue top_results)
            else
              let '(events, out) := delete_item abspath w item_path in
              match out with
              | Returned true =>
                  ([UiConfirm (prompt_for item); UiDeleteItem item_path events;
                    UiDeleted item_path],
                   RoundContinue (list_pop (Z.to_nat index) top_results))
              | Returned false =>
                  ([UiConfirm (prompt_for item); UiDeleteItem item_path events;
                    UiFailed item_path],
                   RoundContinue top_results)
              | Exited code =>
                  ([UiConfirm (prompt_for item); UiDeleteItem item_path events],
                   RoundExit code)
              end
        | None => ([UiInvalidNumber], RoundContinue top_results)
        end
      else ([UiInvalidNumber], RoundContinue top_results)
  end.

(** * Properties *)

(** ** PathClassifier *)

Lemma space_hog_loop_true (name : string) (items : list (string * string))
      (reason : string) :
  space_hog_loop name items = (true, reason) ->
  exists pattern,
    In (pattern, reason) items /\
    (String.eqb name pattern || String.eqb (Py.lower name) (Py.lower pattern)) = true /\
    Py.contains "safe" (Py.lower reason) = true.
Proof.
  induction items as [|[pattern description] rest IH]; simpl; intros H.
  - discriminate.
  - destruct (String.eqb name pattern || String.eqb (Py.lower name) (Py.lower pattern))
      eqn:Hmatch.
    + destruct (Py.contains "safe" (Py.lower description)) eqn:Hsafe.
      * inversion H; subst. exists pattern. auto.
      * discriminate.
    + destruct (IH H) as (pat & Hin & Hm & Hs).
      exists pat. auto.
Qed.

(** A path with a part in [PROTECTED_FOLDERS], letter case included, is
    classified before the name table is looked at. *)
Lemma is_safe_to_delete_protected (nt : bool) (path : string) :
  is_path_protected nt path = true ->
  is_safe_to_delete nt path = (false, "System protected").
Proof.
  intros H. unfold is_safe_to_delete. now rewrite H.
Qed.

(** C2, at the failing input: the path [C:\windows\temp] has the segment
    [windows], which equals the protected name [Windows] up to letter case,
    yet [is_path_protected] compares the segments exactly, so the name table
    is reached and the path is classified as safe to delete. *)
Theorem is_safe_to_delete_lowercase_protected :
  has_protected_segment_ci true "C:\windows\temp" = true /\
  is_path_protected true "C:\windows\temp" = false /\
  is_safe_to_delete true "C:\windows\temp" = (true, "Temporary files (safe to delete)").
Proof.
  repeat split; vm_compute; reflexivity.
Qed.

(** C3, at the failing input: on [C:\windows], whose segment [windows] is a
    protected name up to letter case, the classification-time check answers
    no and the confirmation-time check answers yes. *)
Theorem protected_checks_disagree :
  has_protected_segment_ci true "C:\windows" = true /\
  is_path_protected true "C:\windows" = false /\
  is_protected "C:\windows" = true.
Proof.
  repeat split; vm_compute; reflexivity.
Qed.

(** C10: when [is_safe_to_delete] answers [True], the reason contains
    "safe" once lower-cased; it is the description of a [SPACE_HOGS] entry
    whose pattern matches the final segment, the path is not protected, and
    the reason is neither "System protected" nor "Unknown". *)
Theorem is_safe_to_delete_true_reason (nt : bool) (path reason : string) :
  is_safe_to_delete nt path = (true, reason) ->
  Py.contains "safe" (Py.lower reason) = true /\
  is_path_protected nt path = false /\
  reason <> "System protected" /\
  reason <> "Unknown" /\
  exists pattern,
    In (pattern, reason) SPACE_HOGS /\
    (String.eqb (Pathlib.name nt path) pattern
     || String.eqb (Py.lower (Pathlib.name nt path)) (Py.lower pattern)) = true.
Proof.
  unfold is_safe_to_delete.
  destruct (is_path_protected nt path) eqn:Hprot; [discriminate|].
  intros H. apply space_hog_loop_true in H.
  destruct H as (pattern & Hin & Hmatch & Hsafe).
  repeat split; trivial.
  - intros ->. vm_compute in Hsafe. discriminate.
  - intros ->. vm_compute in Hsafe. discriminate.
  - exists pattern. auto.
Qed.

Lemma is_safe_to_delete_true_reason_witness :
  Py.contains "safe"
    (Py.lower "NPM packages (usually safe to delete if not actively developing)") = true.
Proof.
  apply (is_safe_to_delete_true_reason true "C:\Users\x\node_modules").
  vm_compute. reflexivity.
Defined.

(** ** Threshold parser *)

(** C9: the threshold "500KB" parses to 512000 bytes and "2GB" to
    2147483648 bytes. *)
Theorem parse_threshold_examples :
  parse_threshold "500KB" = Some 512000 /\
  parse_threshold "2GB" = Some 2147483648.
Proof.
  split; vm_compute; reflexivity.
Qed.

(** ** Deleter *)




(** ** Scanner *)

Section ScannerFacts.

Variable nt : bool.
Variable abspath : string -> string.

Lemma sum_sizes_app (l1 l2 : list Entry) :
  sum_sizes (l1 ++ l2) = sum_sizes l1 + sum_sizes l2.
Proof.
  unfold sum_sizes. induction l1 as [|x l1 IH]; simpl; [reflexivity|].
  rewrite IH. lia.
Qed.

(** The second loop of [scan_directory] is a loop over [items_to_scan]. *)
Lemma scan_directory_items_to_scan
      (path name : string) (a : bool) (listing : list node)
      (only_hidden : bool) (threshold : Z) :
  scan_directory nt abspath path (Dir name a true listing) only_hidden threshold
  = (scandir_results nt (get_long_path_name abspath path) only_hidden threshold listing
     ++ flat_map
          (fun it =>
             subdir_round nt threshold (fst it)
                          (scan_directory nt abspath (fst it) (snd it) only_hidden threshold))
          (items_to_scan nt (get_long_path_name abspath path) only_hidden listing))%list.
Proof.
  simpl. f_equal.
  induction listing as [|c l IH]; simpl; [reflexivity|].
  rewrite flat_map_app, <- IH.
  destruct c as [cname ca csize | cname ca cr cl];
    destruct (skipped nt only_hidden _); simpl; rewrite ?app_nil_r; reflexivity.
Qed.

(** [scan_with_progress] returns the list of [scan_directory], and its
    counter advances by the number of entries visited. *)
Lemma scan_with_progress_eq (n : node) :
  forall (path : string) (only_hidden : bool) (threshold items_scanned : Z),
    scan_with_progress nt abspath path n only_hidden threshold items_scanned
    = (scan_directory nt abspath path n only_hidden threshold,
       items_scanned + items_visited nt n only_hidden).
Proof.
  induction n as [name a size | name a readable listing IH] using node_tree_ind;
    intros path only_hidden threshold k.
  - reflexivity.
  - simpl. destruct readable; [|f_equal; lia].
    set (lp := get_long_path_name abspath path).
    assert (Hgen : forall acc k0,
               fold_left
                 (fun st c =>
                    match c with
                    | File _ _ _ => st
                    | Dir cname _ _ _ =>
                        if skipped nt only_hidden c then st
                        else
                          let
                            '(sub_results, count) :=
                            scan_with_progress nt abspath (OsPath.join nt lp cname) c
                                               only_hidden threshold (snd st) in
                          ((fst st ++
                            subdir_round nt threshold (OsPath.join nt lp cname)
                                         sub_results)%list, count)
                    end) listing (acc, k0)
               = ((acc ++
                   flat_map
                     (fun c =>
                        match c with
                        | File _ _ _ => []
                        | Dir cname _ _ _ =>
                            if skipped nt only_hidden c then []
                            else
                              subdir_round nt threshold (OsPath.join nt lp cname)
                                (scan_directory nt abspath (OsPath.join nt lp cname) c
                                                only_hidden threshold)
                        end) listing)%list,
                  k0 +
                  fold_right
                    (fun c a0 =>
                       match c with
                       | File _ _ _ => a0
                       | Dir _ _ _ _ =>
                           if skipped nt only_hidden c then a0
                           else items_visited nt c only_hidden + a0
                       end) 0 listing)).
    { clear k. induction IH as [|c l Hc Hl IHl]; intros acc k0; simpl.
      - rewrite app_nil_r. f_equal. lia.
      - destruct c as [cname ca csize | cname ca cr cl].
        + apply IHl.
        + destruct (skipped nt only_hidden (Dir cname ca cr cl)).
          * apply IHl.
          * rewrite Hc. cbn [fst snd].
            rewrite IHl. rewrite <- app_assoc. f_equal. lia. }
    rewrite Hgen. f_equal. lia.
Qed.

End ScannerFacts.

(** C1, at two failing inputs. The size reported for a directory is the sum
    over the entries emitted beneath it, not the sum of the files beneath
    it. With threshold 0, the directory [d] holding one file of 5 bytes two
    levels down is reported with 10 bytes, since the entry of the directory
    in between is summed again. With threshold 5, the directory [d] holding
    files of 3 and 10 bytes is reported with 10 bytes, and with 13 bytes
    under threshold 0: the reported size depends on the threshold. *)
Theorem scan_directory_reported_size_diverges :
  let scan root threshold := scan_directory true (fun p => p) "C:\r" root false threshold in
  let scan_p root threshold :=
    fst (scan_with_progress true (fun p => p) "C:\r" root false threshold 0) in
  let reported size := mkEntry "C:\r\d" size false false "Unknown" in
  (walked_bytes true deep_dir false = 5 /\
   In (reported 10) (scan deep_tree 0) /\
   In (reported 10) (scan_p deep_tree 0)) /\
  (walked_bytes true flat_dir false = 13 /\
   In (reported 10) (scan flat_tree 5) /\
   In (reported 10) (scan_p flat_tree 5) /\
   In (reported 13) (scan flat_tree 0)).
Proof.
  vm_compute. intuition.
Qed.

(** C7: under [only_hidden], a listed child that is not hidden is skipped
    entirely. The scan of the directory with the child equals the scan of
    the directory without it: the same entries are emitted, the same sizes
    are reported, the local [total_size] is the same, and the walk visits
    one object more, the child itself and nothing beneath it. *)
Theorem hidden_only_prunes
        (nt : bool) (abspath : string -> string)
        (path name : string) (a readable : bool) (l1 l2 : list node) (c : node)
        (threshold items_scanned : Z) :
  entry_is_hidden nt c = false ->
  let with_child := Dir name a readable (l1 ++ c :: l2) in
  let without_child := Dir name a readable (l1 ++ l2) in
  scan_directory nt abspath path with_child true threshold
  = scan_directory nt abspath path without_child true threshold
  /\ total_size nt abspath path with_child true threshold
     = total_size nt abspath path without_child true threshold
  /\ walked_bytes nt with_child true = walked_bytes nt without_child true
  /\ scan_with_progress nt abspath path with_child true threshold items_scanned
     = (fst (scan_with_progress nt abspath path without_child true threshold items_scanned),
        snd (scan_with_progress nt abspath path without_child true threshold items_scanned)
        + (if readable then 1 else 0)).
Proof.
  intros Hc with_child without_child.
  assert (Hskip : skipped nt true c = true).
  { unfold skipped. now rewrite Hc. }
  assert (Hscan : scan_directory nt abspath path with_child true threshold
                  = scan_directory nt abspath path without_child true threshold).
  { unfold with_child, without_child. cbn [scan_directory].
    destruct readable; [|reflexivity].
    unfold scandir_results. rewrite !flat_map_app. cbn [flat_map app].
    rewrite Hskip. destruct c; reflexivity. }
  split; [exact Hscan|]. split; [|split].
  - unfold with_child, without_child, total_size. destruct readable; [|reflexivity].
    unfold scandir_total, items_to_scan.
    rewrite !flat_map_app, !fold_right_app.
    cbn [flat_map fold_right app]. rewrite Hskip. reflexivity.
  - unfold with_child, without_child. cbn [walked_bytes].
    destruct readable; [|reflexivity].
    rewrite !fold_right_app. cbn [fold_right]. rewrite Hskip. reflexivity.
  - rewrite !scan_with_progress_eq. cbn [fst snd]. rewrite Hscan. f_equal.
    unfold with_child, without_child. cbn [items_visited].
    destruct readable; [|lia].
    rewrite !fold_right_app, !length_app. cbn [fold_right List.length].
    rewrite Hskip. destruct c; cbv beta iota; lia.
Qed.

Lemma hidden_only_prunes_witness :
  scan_directory true (fun p => p) "C:\r"
                 (Dir "r" false true
                      ([File ".x" true 7] ++ Dir "d" false true [File "a" true 3] :: []))
                 true 0
  = scan_directory true (fun p => p) "C:\r"
                   (Dir "r" false true ([File ".x" true 7] ++ [])) true 0.
Proof.
  apply (hidden_only_prunes true (fun p => p) "C:\r" "r" false true
                            [File ".x" true 7] [] (Dir "d" false true [File "a" true 3])
                            0 0).
  reflexivity.
Defined.

(** ** Reconciler *)

Lemma dict_get_set_same (k : string) (v : Entry) (d : path_dict) :
  dict_get k (dict_set k v d) = Some v.
Proof.
  induction d as [|[k' v'] d IH]; simpl.
  - now rewrite String.eqb_refl.
  - destruct (String.eqb k k') eqn:E; simpl; rewrite E; auto.
Qed.

Lemma dict_get_set_other (k k' : string) (v : Entry) (d : path_dict) :
  k <> k' -> dict_get k' (dict_set k v d) = dict_get k' d.
Proof.
  intros Hne. induction d as [|[k0 v0] d IH]; simpl.
  - apply String.eqb_neq in Hne. rewrite String.eqb_sym. now rewrite Hne.
  - destruct (String.eqb k k0) eqn:E; simpl.
    + apply String.eqb_eq in E. subst k0.
      destruct (String.eqb k' k) eqn:E'; [|reflexivity].
      apply String.eqb_eq in E'. congruence.
    + now rewrite IH.
Qed.

Lemma dict_get_None_keys (k : string) (d : path_dict) :
  dict_get k d = None -> ~ In k (map fst d).
Proof.
  induction d as [|[k' v'] d IH]; simpl; [tauto|].
  destruct (String.eqb k k') eqn:E; [discriminate|].
  apply String.eqb_neq in E. intros H [H'|H']; [congruence|]. now apply IH.
Qed.

Lemma dict_set_keys (k : string) (v : Entry) (d : path_dict) :
  map fst (dict_set k v d)
  = match dict_get k d with
    | Some _ => map fst d
    | None => (map fst d ++ [k])%list
    end.
Proof.
  induction d as [|[k' v'] d IH]; simpl; [reflexivity|].
  destruct (String.eqb k k') eqn:E; simpl; [reflexivity|].
  rewrite IH. now destruct (dict_get k d).
Qed.

Lemma dict_set_Forall (P : string * Entry -> Prop) (k : string) (v : Entry)
      (d : path_dict) :
  (forall k', P (k', v)) -> Forall P d -> Forall P (dict_set k v d).
Proof.
  intros Hv Hd. induction Hd as [|[k' v'] d Hx Hd IH]; simpl.
  - constructor; auto.
  - destruct (String.eqb k k'); constructor; auto.
Qed.

Lemma dict_set_wf (v : Entry) (d : path_dict) :
  dict_wf d -> dict_wf (dict_set (e_path v) v d).
Proof.
  intros [Hnd Hv]. split.
  - rewrite dict_set_keys. destruct (dict_get (e_path v) d) eqn:E; [assumption|].
    apply dict_get_None_keys in E.
    apply NoDup_rev in Hnd. rewrite <- (rev_involutive (_ ++ _)).
    apply NoDup_rev. rewrite rev_app_distr. simpl. constructor; [|assumption].
    now rewrite <- in_rev.
  - induction Hv as [|[k' v'] d Hx Hv IH]; simpl.
    + constructor; auto.
    + inversion Hnd; subst.
      destruct (String.eqb (e_path v) k') eqn:E.
      * apply String.eqb_eq in E. constructor; auto.
      * constructor; auto.
Qed.

Lemma reconcile_step_wf (d : path_dict) (x : Entry) :
  dict_wf d -> dict_wf (reconcile_step d x).
Proof.
  intros H. unfold reconcile_step.
  destruct (dict_get (e_path x) d) as [cur|].
  - destruct (e_size cur <? e_size x); auto using dict_set_wf.
  - auto using dict_set_wf.
Qed.

Lemma reconcile_snoc (results : list Entry) (x : Entry) :
  reconcile (results ++ [x]) = reconcile_step (reconcile results) x.
Proof.
  unfold reconcile. now rewrite fold_left_app.
Qed.

Lemma reconcile_wf (results : list Entry) : dict_wf (reconcile results).
Proof.
  induction results as [|x results IH] using rev_ind.
  - split; constructor.
  - rewrite reconcile_snoc. now apply reconcile_step_wf.
Qed.

Lemma dict_wf_get (d : path_dict) (e : Entry) :
  dict_wf d -> In e (dict_values d) -> dict_get (e_path e) d = Some e.
Proof.
  unfold dict_values. intros [Hnd Hv] Hin.
  induction d as [|[k v] d IH]; simpl in *; [tauto|].
  inversion Hnd as [|? ? Hk Hnd']; subst.
  inversion Hv as [|? ? Hkv Hv']; subst. simpl in Hkv.
  destruct Hin as [->|Hin].
  - rewrite Hkv. now rewrite String.eqb_refl.
  - destruct (String.eqb (e_path e) k) eqn:E; [|auto].
    apply String.eqb_eq in E. exfalso. apply Hk.
    specialize (IH Hnd' Hv' Hin).
    clear - IH E. subst k.
    induction d as [|[k' v'] d IHd]; simpl in *; [discriminate|].
    destruct (String.eqb (e_path e) k') eqn:E'.
    + apply String.eqb_eq in E'. now left.
    + right. auto.
Qed.

Lemma dict_get_In (k : string) (v : Entry) (d : path_dict) :
  dict_get k d = Some v -> In v (dict_values d).
Proof.
  unfold dict_values. induction d as [|[k' v'] d IH]; simpl; [discriminate|].
  destruct (String.eqb k k'); intros H.
  - inversion H. now left.
  - right. auto.
Qed.

Lemma first_largest_In (results : list Entry) (e : Entry) :
  first_largest results e -> In e results.
Proof.
  intros (l1 & l2 & -> & _). apply in_elt.
Qed.

Lemma first_largest_bound (results : list Entry) (e x : Entry) :
  first_largest results e -> In x results -> e_path x = e_path e ->
  e_size x <= e_size e.
Proof.
  intros (l1 & l2 & -> & Hl1 & Hl2) Hin Hp.
  apply in_app_or in Hin. destruct Hin as [Hin|[->|Hin]].
  - specialize (Hl1 x Hin Hp). lia.
  - lia.
  - auto.
Qed.

Lemma first_largest_snoc_other (results : list Entry) (e x : Entry) :
  first_largest results e ->
  (e_path x = e_path e -> e_size x <= e_size e) ->
  first_largest (results ++ [x]) e.
Proof.
  intros (l1 & l2 & -> & Hl1 & Hl2) Hx.
  exists l1, (l2 ++ [x])%list. repeat split; auto.
  - now rewrite <- app_assoc.
  - intros y Hy Hp. apply in_app_or in Hy. destruct Hy as [Hy|[->|[]]]; auto.
Qed.

Lemma first_largest_snoc_new (results : list Entry) (x : Entry) :
  (forall y, In y results -> e_path y = e_path x -> e_size y < e_size x) ->
  first_largest (results ++ [x]) x.
Proof.
  intros H. exists results, []. repeat split; auto.
  intros y [].
Qed.

(** Two decompositions of one list around [a] and around [b]: the same
    position, or one of the two comes first. *)
Lemma split_twice (A : Type) (l1 l2 l1' l2' : list A) (a b : A) :
  (l1 ++ a :: l2 = l1' ++ b :: l2')%list ->
  (l1 = l1' /\ a = b /\ l2 = l2') \/
  (In a l1' /\ In b l2) \/
  (In b l1 /\ In a l2').
Proof.
  revert l1'. induction l1 as [|x l1 IH]; intros [|y l1'] H; simpl in H.
  - inversion H. auto.
  - inversion H; subst. right. left. split; [now left|apply in_elt].
  - inversion H; subst. right. right. split; [now left|apply in_elt].
  - inversion H as [[Hxy Ht]]. subst y.
    destruct (IH _ Ht) as [(-> & -> & ->)|[[Ha Hb]|[Hb Ha]]].
    + auto.
    + right. left. split; [now right|assumption].
    + right. right. split; [now right|assumption].
Qed.

Lemma first_largest_unique (results : list Entry) (e e' : Entry) :
  first_largest results e -> first_largest results e' ->
  e_path e = e_path e' -> e = e'.
Proof.
  intros (l1 & l2 & -> & Hl1 & Hl2) (l1' & l2' & Heq & Hl1' & Hl2') Hp.
  destruct (split_twice _ _ _ _ _ _ _ Heq) as [(_ & He & _)|[[Ha Hb]|[Hb Ha]]].
  - assumption.
  - specialize (Hl1' e Ha Hp). specialize (Hl2 e' Hb (eq_sym Hp)). lia.
  - specialize (Hl1 e' Hb (eq_sym Hp)). specialize (Hl2' e Ha Hp). lia.
Qed.

(** What the dict holds after the loop, path by path. *)
Lemma reconcile_get (results : list Entry) (p : string) :
  match dict_get p (reconcile results) with
  | None => forall x, In x results -> e_path x <> p
  | Some e => e_path e = p /\ first_largest results e
  end.
Proof.
  revert p. induction results as [|x results IH] using rev_ind; intros p.
  - simpl. tauto.
  - rewrite reconcile_snoc. unfold reconcile_step.
    pose proof (IH (e_path x)) as IHx. pose proof (IH p) as IHp.
    assert (Hother : e_path x <> p ->
              match dict_get p (reconcile results) with
              | None => forall y, In y (results ++ [x]) -> e_path y <> p
              | Some e => e_path e = p /\ first_largest (results ++ [x]) e
              end).
    { intros Hne. destruct (dict_get p (reconcile results)) as [e|].
      - destruct IHp as [He Hfl]. split; [assumption|].
        apply first_largest_snoc_other; [assumption|congruence].
      - intros y Hy. apply in_app_or in Hy. destruct Hy as [Hy|[<-|[]]]; auto. }
    destruct (dict_get (e_path x) (reconcile results)) as [cur|] eqn:Hget.
    + destruct IHx as [Hcur Hfl].
      destruct (e_size cur <? e_size x) eqn:Hlt.
      * apply Z.ltb_lt in Hlt.
        destruct (String.eqb_spec (e_path x) p) as [<-|Hne].
        -- rewrite dict_get_set_same. split; [reflexivity|].
           apply first_largest_snoc_new. intros y Hy Hp.
           assert (e_size y <= e_size cur)
             by (apply (first_largest_bound results); congruence).
           lia.
        -- rewrite dict_get_set_other by assumption. exact (Hother Hne).
      * apply Z.ltb_ge in Hlt.
        destruct (String.eqb_spec (e_path x) p) as [<-|Hne].
        -- rewrite Hget. split; [assumption|].
           apply first_largest_snoc_other; auto.
        -- exact (Hother Hne).
    + destruct (String.eqb_spec (e_path x) p) as [<-|Hne].
      * rewrite dict_get_set_same. split; [reflexivity|].
        apply first_largest_snoc_new. intros y Hy Hp. now apply IHx in Hy.
      * rewrite dict_get_set_other by assumption. exact (Hother Hne).
Qed.

(** C4: the filter groups the entries by exact path and keeps, for every
    path of the input, one entry: the first one seen among those of largest
    size. So a later entry replaces the kept one only when it is strictly
    larger, and on equal sizes the entry seen first stays. *)
Theorem reconcile_keeps_first_largest (results : list Entry) :
  (forall e, In e (filtered_results results) <-> first_largest results e) /\
  (forall x, In x results ->
             exists e, In e (filtered_results results) /\ e_path e = e_path x).
Proof.
  assert (Hpresent : forall x, In x results ->
            exists e, dict_get (e_path x) (reconcile results) = Some e /\
                      e_path e = e_path x /\ first_largest results e).
  { intros x Hx. pose proof (reconcile_get results (e_path x)) as H.
    destruct (dict_get (e_path x) (reconcile results)) as [e|].
    - exists e. tauto.
    - exfalso. now apply (H x). }
  split.
  - intros e. split.
    + intros Hin. apply dict_wf_get in Hin; [|apply reconcile_wf].
      pose proof (reconcile_get results (e_path e)) as H.
      rewrite Hin in H. tauto.
    + intros Hfl.
      destruct (Hpresent e (first_largest_In _ _ Hfl)) as (e' & Hget & Hp & Hfl').
      assert (e' = e) by (eapply first_largest_unique; eauto). subst e'.
      unfold filtered_results. eapply dict_get_In; eauto.
  - intros x Hx. destruct (Hpresent x Hx) as (e & Hget & Hp & _).
    exists e. split; [|assumption].
    unfold filtered_results. eapply dict_get_In; eauto.
Qed.

(** C5: the reconciled list holds at most one entry for any path. *)
Theorem filtered_results_unique_paths (results : list Entry) :
  NoDup (map e_path (filtered_results results)).
Proof.
  unfold filtered_results, dict_values.
  destruct (reconcile_wf results) as [Hnd Hv].
  replace (map e_path (map snd (reconcile results)))
    with (map fst (reconcile results)); [assumption|].
  rewrite map_map. apply map_ext_Forall.
  eapply Forall_impl; [|exact Hv]. intros kv H. now symmetry.
Qed.

Lemma reconcile_keeps_first_largest_witness :
  In (mkEntry "C:\r\a" 9 true false "Unknown")
     (filtered_results [mkEntry "C:\r\a" 4 false false "Unknown";
                        mkEntry "C:\r\a" 9 true false "Unknown";
                        mkEntry "C:\r\a" 9 false false "Unknown"]).
Proof.
  apply (reconcile_keeps_first_largest
           [mkEntry "C:\r\a" 4 false false "Unknown";
            mkEntry "C:\r\a" 9 true false "Unknown";
            mkEntry "C:\r\a" 9 false false "Unknown"]).
  exists [mkEntry "C:\r\a" 4 false false "Unknown"],
         [mkEntry "C:\r\a" 9 false false "Unknown"].
  repeat split.
  - intros x [<-|[]] _. simpl. lia.
  - intros x [<-|[]] _. simpl. lia.
Defined.

(** C4 as stated fails: two entries of one path and one size, a file entry
    seen first and a directory entry seen last. The filter keeps the first;
    the rule of the specification would keep the last. *)
Lemma reconcile_tie_keeps_first :
  let first := mkEntry "C:\r\a" 5 true false "Unknown" in
  let last := mkEntry "C:\r\a" 5 false false "Unknown" in
  e_path first = e_path last /\
  e_size first = e_size last /\
  filtered_results [first; last] = [first] /\
  filtered_results_last_wins [first; last] = [last] /\
  filtered_results [first; last] <> filtered_results_last_wins [first; last].
Proof.
  repeat split; try discriminate.
Qed.

(** ** Ranking *)

Lemma insert_desc_perm (x : Entry) (l : list Entry) :
  Permutation (insert_desc x l) (x :: l).
Proof.
  induction l as [|y l IH]; simpl; [reflexivity|].
  destruct (e_size x <? e_size y); [|reflexivity].
  rewrite IH. apply perm_swap.
Qed.

Lemma sort_by_size_perm (l : list Entry) : Permutation (sort_by_size l) l.
Proof.
  induction l as [|x l IH]; simpl; [reflexivity|].
  rewrite insert_desc_perm. now constructor.
Qed.

Lemma insert_desc_sorted (x : Entry) (l : list Entry) :
  StronglySorted size_desc l -> StronglySorted size_desc (insert_desc x l).
Proof.
  unfold size_desc.
  induction 1 as [|y l Hs IH Hy]; simpl.
  - repeat constructor.
  - destruct (e_size x <? e_size y) eqn:E.
    + apply Z.ltb_lt in E. constructor; [assumption|].
      eapply Permutation_Forall; [symmetry; apply insert_desc_perm|].
      constructor; [lia|assumption].
    + apply Z.ltb_ge in E. constructor.
      * now constructor.
      * constructor; [assumption|].
        eapply Forall_impl; [|exact Hy]. simpl. intros a Ha. lia.
Qed.

Lemma sort_by_size_sorted (l : list Entry) :
  StronglySorted size_desc (sort_by_size l).
Proof.
  induction l as [|x l IH]; simpl; [constructor|].
  now apply insert_desc_sorted.
Qed.

Lemma insert_desc_of_size (k : Z) (x : Entry) (l : list Entry) :
  of_size k (insert_desc x l) = of_size k (x :: l).
Proof.
  unfold of_size. induction l as [|y l IH]; simpl; [reflexivity|].
  destruct (e_size x <? e_size y) eqn:E; [|reflexivity].
  apply Z.ltb_lt in E. simpl. rewrite IH. simpl.
  destruct (e_size x =? k) eqn:Ex, (e_size y =? k) eqn:Ey; try reflexivity.
  apply Z.eqb_eq in Ex, Ey. lia.
Qed.

(** Stability: entries of equal size keep their relative order. *)
Lemma sort_by_size_stable (k : Z) (l : list Entry) :
  of_size k (sort_by_size l) = of_size k l.
Proof.
  induction l as [|x l IH]; simpl; [reflexivity|].
  rewrite insert_desc_of_size. unfold of_size in *. simpl. now rewrite IH.
Qed.

Lemma of_size_In (k : Z) (l : list Entry) (x : Entry) :
  In x (of_size k l) <-> In x l /\ e_size x = k.
Proof.
  unfold of_size. rewrite filter_In. now rewrite Z.eqb_eq.
Qed.

(** A list in descending order that agrees with [l] on the entries of every
    size is the sorted list: the model of the built-in sort does not depend
    on the sorting algorithm. *)
Lemma stable_sorted_unique (l1 l2 : list Entry) :
  StronglySorted size_desc l1 -> StronglySorted size_desc l2 ->
  (forall k, of_size k l1 = of_size k l2) -> l1 = l2.
Proof.
  unfold size_desc. intros H1. revert l2.
  induction H1 as [|x l1 Hs1 IH Hx]; intros l2 H2 Heq.
  - destruct l2 as [|y l2]; [reflexivity|].
    specialize (Heq (e_size y)). unfold of_size in Heq. simpl in Heq.
    rewrite Z.eqb_refl in Heq. discriminate.
  - destruct H2 as [|y l2 Hs2 Hy].
    + specialize (Heq (e_size x)). unfold of_size in Heq. simpl in Heq.
      rewrite Z.eqb_refl in Heq. discriminate.
    + assert (Hxy : e_size x = e_size y).
      { assert (In x (y :: l2)) as Hin.
        { apply (of_size_In (e_size x)). rewrite <- Heq.
          apply of_size_In. split; [now left|reflexivity]. }
        assert (In y (x :: l1)) as Hin'.
        { apply (of_size_In (e_size y)). rewrite Heq.
          apply of_size_In. split; [now left|reflexivity]. }
        rewrite Forall_forall in Hx, Hy.
        destruct Hin as [->|Hin]; [reflexivity|].
        destruct Hin' as [->|Hin']; [reflexivity|].
        specialize (Hx _ Hin'). specialize (Hy _ Hin). lia. }
      assert (x = y).
      { specialize (Heq (e_size x)). unfold of_size in Heq. simpl in Heq.
        rewrite <- Hxy, Z.eqb_refl in Heq. now inversion Heq. }
      subst y. f_equal. apply IH; [assumption|].
      intros k. specialize (Heq k). unfold of_size in *. simpl in Heq.
      destruct (e_size x =? k); [now inversion Heq|assumption].
Qed.

Lemma sort_by_size_unique (l l' : list Entry) :
  StronglySorted size_desc l' ->
  (forall k, of_size k l' = of_size k l) ->
  l' = sort_by_size l.
Proof.
  intros Hs Hst. apply stable_sorted_unique; [assumption|apply sort_by_size_sorted|].
  intros k. now rewrite sort_by_size_stable.
Qed.

Lemma slice_to_nonneg (l : list Entry) (top : Z) :
  0 <= top -> slice_to l top = firstn (Z.to_nat top) l.
Proof.
  intros H. unfold slice_to.
  destruct (top <? 0) eqn:E; [apply Z.ltb_lt in E; lia|reflexivity].
Qed.

Lemma slice_to_negative (l : list Entry) (top : Z) :
  top < 0 -> slice_to l top = firstn (List.length l - Z.to_nat (- top)) l.
Proof.
  intros H. unfold slice_to.
  destruct (top <? 0) eqn:E; [|apply Z.ltb_ge in E; lia].
  f_equal. lia.
Qed.

(** C6: the ranking is the stable descending sort of the reconciled entries
    by size, cut by the slice [[:top]]. For [top = 0] the view is empty; for
    [top] at least the number of entries it is the whole sorted list; for
    [0 <= top] it is the first [top] entries; for a negative [top] it is the
    sorted list without its last [-top] entries. *)
Theorem top_results_ranking (results : list Entry) (top : Z) :
  let ranked := sort_by_size (filtered_results results) in
  StronglySorted size_desc ranked /\
  Permutation ranked (filtered_results results) /\
  (forall k, of_size k ranked = of_size k (filtered_results results)) /\
  (top = 0 -> top_results results top = []) /\
  (Z.of_nat (List.length ranked) <= top -> top_results results top = ranked) /\
  (0 <= top -> top_results results top = firstn (Z.to_nat top) ranked) /\
  (top < 0 ->
   top_results results top = firstn (List.length ranked - Z.to_nat (- top)) ranked).
Proof.
  intros ranked. unfold top_results. fold ranked.
  split; [apply sort_by_size_sorted|].
  split; [apply sort_by_size_perm|].
  split; [intros k; apply sort_by_size_stable|].
  split; [intros ->; reflexivity|].
  split; [|split].
  - intros H. rewrite slice_to_nonneg by lia. apply firstn_all2. lia.
  - apply slice_to_nonneg.
  - apply slice_to_negative.
Qed.

Lemma top_results_ranking_witness :
  top_results [mkEntry "C:\r\a" 4 true false "Unknown";
               mkEntry "C:\r\b" 9 true false "Unknown";
               mkEntry "C:\r\c" 4 false false "Unknown"] 5
  = [mkEntry "C:\r\b" 9 true false "Unknown";
     mkEntry "C:\r\a" 4 true false "Unknown";
     mkEntry "C:\r\c" 4 false false "Unknown"].
Proof.
  refine (proj1 (proj2 (proj2 (proj2 (proj2
           (top_results_ranking
              [mkEntry "C:\r\a" 4 true false "Unknown";
               mkEntry "C:\r\b" 9 true false "Unknown";
               mkEntry "C:\r\c" 4 false false "Unknown"] 5))))) _).
  simpl. lia.
Defined.

(** C6 as stated fails for a negative count: with two entries and
    [top = -1] the view holds the larger entry instead of being empty. *)
Lemma top_results_negative_not_empty :
  (-1 <= 0) /\
  top_results [mkEntry "C:\r\a" 4 true false "Unknown";
               mkEntry "C:\r\b" 9 true false "Unknown"] (-1)
  = [mkEntry "C:\r\b" 9 true false "Unknown"] /\
  top_results [mkEntry "C:\r\a" 4 true false "Unknown";
               mkEntry "C:\r\b" 9 true false "Unknown"] (-1) <> [].
Proof.
  split; [lia|]. split; [reflexivity|discriminate].
Qed.


(** * Further properties of the code *)

(** ** Strings *)

Lemma ascii_lower_idem (c : ascii) :
  Py.ascii_lower (Py.ascii_lower c) = Py.ascii_lower c.
Proof.
  destruct c as [[] [] [] [] [] [] [] []]; reflexivity.
Qed.

Lemma ascii_lower_upper (c : ascii) :
  Py.ascii_lower (Py.ascii_upper c) = Py.ascii_lower c.
Proof.
  destruct c as [[] [] [] [] [] [] [] []]; reflexivity.
Qed.

Lemma lower_idem (s : string) : Py.lower (Py.lower s) = Py.lower s.
Proof.
  induction s as [|c s IH]; simpl; [reflexivity|].
  now rewrite ascii_lower_idem, IH.
Qed.

Lemma lower_upper (s : string) : Py.lower (Py.upper s) = Py.lower s.
Proof.
  induction s as [|c s IH]; simpl; [reflexivity|].
  now rewrite ascii_lower_upper, IH.
Qed.

Lemma lower_app (a b : string) : Py.lower (a ++ b) = Py.lower a ++ Py.lower b.
Proof.
  induction a as [|c a IH]; simpl; [reflexivity|]. now rewrite IH.
Qed.

Lemma length_app_string (a b : string) :
  String.length (a ++ b) = (String.length a + String.length b)%nat.
Proof.
  induction a as [|c a IH]; simpl; [reflexivity|]. now rewrite IH.
Qed.

Lemma append_assoc_string (a b c : string) : (a ++ b) ++ c = a ++ (b ++ c).
Proof.
  induction a as [|x a IH]; simpl; [reflexivity|]. now rewrite IH.
Qed.

Lemma prefix_app (a b : string) : String.prefix a (a ++ b) = true.
Proof.
  induction a as [|c a IH]; simpl.
  - now destruct b.
  - destruct (ascii_dec c c); [assumption|congruence].
Qed.

Lemma contains_app (needle a b : string) :
  Py.contains needle (a ++ needle ++ b) = true.
Proof.
  induction a as [|c a IH].
  - simpl String.append at 1. destruct (needle ++ b) eqn:E.
    + destruct needle; [reflexivity|discriminate].
    + rewrite <- E. unfold Py.contains. destruct (needle ++ b) eqn:E'.
      * discriminate.
      * rewrite <- E'. now rewrite prefix_app.
  - simpl. rewrite IH. apply orb_true_r.
Qed.

Lemma drop_app (a b : string) : Py.drop (String.length a) (a ++ b) = b.
Proof.
  induction a as [|c a IH]; simpl; [now destruct b|assumption].
Qed.

Lemma take_app (a b : string) : Py.take (String.length a) (a ++ b) = a.
Proof.
  induction a as [|c a IH]; simpl; [now destruct b|now rewrite IH].
Qed.

Lemma last_n_app (a b : string) : Py.last_n (String.length b) (a ++ b) = b.
Proof.
  unfold Py.last_n. rewrite length_app_string.
  replace (String.length a + String.length b - String.length b)%nat
    with (String.length a) by lia.
  apply drop_app.
Qed.

Lemma but_last_n_app (a b : string) : Py.but_last_n (String.length b) (a ++ b) = a.
Proof.
  unfold Py.but_last_n. rewrite length_app_string.
  replace (String.length a + String.length b - String.length b)%nat
    with (String.length a) by lia.
  apply take_app.
Qed.

Lemma endswith_app (a b : string) : Py.endswith (a ++ b) b = true.
Proof.
  unfold Py.endswith. rewrite last_n_app, String.eqb_refl, length_app_string.
  rewrite andb_true_r. apply Nat.leb_le. lia.
Qed.

(** ** PathClassifier, continued *)

(** X1: on an ASCII path, [is_protected] does not depend on the letter
    case: the path, its lower-cased form and its upper-cased form get the
    same answer. *)
Theorem is_protected_case_insensitive (path : string) :
  Py.is_ascii path = true ->
  is_protected (Py.lower path) = is_protected path /\
  is_protected (Py.upper path) = is_protected path.
Proof.
  intros _. unfold is_protected. now rewrite lower_idem, lower_upper.
Qed.

Lemma is_protected_case_insensitive_witness :
  is_protected (Py.upper "C:\Windows\notepad.exe") = is_protected "C:\Windows\notepad.exe".
Proof.
  apply (is_protected_case_insensitive "C:\Windows\notepad.exe").
  reflexivity.
Defined.

(** X2: a protected name written in any letter case is recognised by
    [is_protected] at the end of a path and in its middle, after a
    backslash or after a slash. *)
Theorem is_protected_detects (before name rest protected : string) :
  In protected PROTECTED_FOLDERS ->
  Py.lower name = Py.lower protected ->
  is_protected (before ++ "\" ++ name) = true /\
  is_protected (before ++ "/" ++ name) = true /\
  is_protected (before ++ "\" ++ name ++ "\" ++ rest) = true /\
  is_protected (before ++ "/" ++ name ++ "/" ++ rest) = true.
Proof.
  intros Hin Hname. unfold is_protected.
  repeat split; apply existsb_exists; exists protected; (split; [assumption|]);
    rewrite !lower_app, ?Hname.
  - change (Py.lower "\") with "\".
    rewrite (endswith_app (Py.lower before) ("\" ++ Py.lower protected)).
    now rewrite orb_true_r.
  - change (Py.lower "/") with "/".
    rewrite (endswith_app (Py.lower before) ("/" ++ Py.lower protected)).
    now rewrite !orb_true_r.
  - change (Py.lower "\") with "\".
    replace (Py.lower before ++ "\" ++ Py.lower protected ++ "\" ++ Py.lower rest)
      with (Py.lower before ++ ("\" ++ Py.lower protected ++ "\") ++ Py.lower rest).
    + now rewrite contains_app.
    + now rewrite !append_assoc_string.
  - change (Py.lower "/") with "/".
    replace (Py.lower before ++ "/" ++ Py.lower protected ++ "/" ++ Py.lower rest)
      with (Py.lower before ++ ("/" ++ Py.lower protected ++ "/") ++ Py.lower rest).
    + rewrite contains_app. now rewrite !orb_true_r.
    + now rewrite !append_assoc_string.
Qed.

Lemma is_protected_detects_witness :
  is_protected ("D:\backup" ++ "\" ++ "SYSTEM32") = true.
Proof.
  apply (is_protected_detects "D:\backup" "SYSTEM32" "" "System32").
  - simpl. tauto.
  - reflexivity.
Defined.

(** The test of the name table is a comparison of the lower-cased texts. *)
Lemma pattern_match_lower (name pattern : string) :
  String.eqb name pattern || String.eqb (Py.lower name) (Py.lower pattern)
  = String.eqb (Py.lower name) (Py.lower pattern).
Proof.
  destruct (String.eqb_spec name pattern) as [->|_]; [|reflexivity].
  now rewrite String.eqb_refl.
Qed.

Lemma space_hog_loop_lower (n1 n2 : string) (items : list (string * string)) :
  Py.lower n1 = Py.lower n2 -> space_hog_loop n1 items = space_hog_loop n2 items.
Proof.
  intros H. induction items as [|[pattern description] rest IH]; simpl; [reflexivity|].
  rewrite !pattern_match_lower, H, IH. reflexivity.
Qed.

Lemma space_hog_loop_miss (name : string) (items : list (string * string)) :
  (forall pattern, In pattern (map fst items) -> Py.lower name <> Py.lower pattern) ->
  space_hog_loop name items = (false, "Unknown").
Proof.
  induction items as [|[pattern description] rest IH]; simpl; intros H; [reflexivity|].
  rewrite pattern_match_lower.
  destruct (String.eqb_spec (Py.lower name) (Py.lower pattern)) as [E|_].
  - exfalso. apply (H pattern); auto.
  - apply IH. intros p Hp. apply H. auto.
Qed.

Lemma space_hog_loop_hit (name pattern description : string)
      (items : list (string * string)) :
  NoDup (map (fun it => Py.lower (fst it)) items) ->
  In (pattern, description) items ->
  Py.lower name = Py.lower pattern ->
  space_hog_loop name items
  = (Py.contains "safe" (Py.lower description), description).
Proof.
  induction items as [|[p0 d0] rest IH]; simpl; intros Hnd Hin Hname; [tauto|].
  inversion Hnd as [|? ? Hnotin Hnd']; subst.
  rewrite pattern_match_lower.
  destruct (String.eqb_spec (Py.lower name) (Py.lower p0)) as [E|NE].
  - destruct Hin as [Heq|Hin].
    + inversion Heq; subst. now destruct (Py.contains "safe" (Py.lower description)).
    + exfalso. apply Hnotin.
      apply (in_map (fun it => Py.lower (fst it))) in Hin. simpl in Hin. congruence.
  - destruct Hin as [Heq|Hin].
    + inversion Heq; subst. congruence.
    + now apply IH.
Qed.

Lemma SPACE_HOGS_patterns_distinct :
  NoDup (map (fun it => Py.lower (fst it)) SPACE_HOGS).
Proof.
  vm_compute.
  repeat (constructor; [simpl; intuition discriminate|]). constructor.
Qed.

(** X3: [is_safe_to_delete] answers [True] with a reason exactly when the
    path is not protected and its final segment equals, up to letter case, a
    pattern of [SPACE_HOGS] whose description is that reason and contains
    "safe" once lower-cased. *)
Theorem is_safe_to_delete_true_iff (nt : bool) (path reason : string) :
  is_safe_to_delete nt path = (true, reason) <->
  is_path_protected nt path = false /\
  exists pattern,
    In (pattern, reason) SPACE_HOGS /\
    Py.lower (Pathlib.name nt path) = Py.lower pattern /\
    Py.contains "safe" (Py.lower reason) = true.
Proof.
  unfold is_safe_to_delete. split.
  - destruct (is_path_protected nt path); [discriminate|].
    intros H. split; [reflexivity|].
    apply space_hog_loop_true in H. destruct H as (pattern & Hin & Hm & Hs).
    exists pattern. rewrite pattern_match_lower in Hm.
    apply String.eqb_eq in Hm. auto.
  - intros (Hprot & pattern & Hin & Hname & Hsafe). rewrite Hprot.
    rewrite (space_hog_loop_hit _ pattern reason);
      auto using SPACE_HOGS_patterns_distinct.
    now rewrite Hsafe.
Qed.

(** X4: a path that is not protected and whose final segment matches no
    pattern of [SPACE_HOGS], letter case aside, is classified as not safe
    with the reason "Unknown". *)
Theorem is_safe_to_delete_unknown (nt : bool) (path : string) :
  is_path_protected nt path = false ->
  (forall pattern, In pattern (map fst SPACE_HOGS) ->
                   Py.lower (Pathlib.name nt path) <> Py.lower pattern) ->
  is_safe_to_delete nt path = (false, "Unknown").
Proof.
  intros Hprot Hmiss. unfold is_safe_to_delete. rewrite Hprot.
  now apply space_hog_loop_miss.
Qed.

Lemma is_safe_to_delete_unknown_witness :
  is_safe_to_delete true "C:\Users\x\photos" = (false, "Unknown").
Proof.
  apply (is_safe_to_delete_unknown true "C:\Users\x\photos").
  - reflexivity.
  - vm_compute. intros pattern H.
    repeat (destruct H as [<-|H]; [discriminate|]). destruct H.
Defined.

(** X5: two paths that are not protected and whose final segments agree up
    to letter case get the same verdict and the same reason. *)
Theorem is_safe_to_delete_name_case (nt : bool) (p1 p2 : string) :
  is_path_protected nt p1 = false ->
  is_path_protected nt p2 = false ->
  Py.lower (Pathlib.name nt p1) = Py.lower (Pathlib.name nt p2) ->
  is_safe_to_delete nt p1 = is_safe_to_delete nt p2.
Proof.
  intros H1 H2 Hname. unfold is_safe_to_delete. rewrite H1, H2.
  now apply space_hog_loop_lower.
Qed.

Lemma is_safe_to_delete_name_case_witness :
  is_safe_to_delete true "C:\a\Node_Modules" = is_safe_to_delete true "D:\b\node_modules".
Proof.
  apply (is_safe_to_delete_name_case true "C:\a\Node_Modules" "D:\b\node_modules");
    reflexivity.
Defined.

(** ** Long paths *)

(** X6: the path returned by [get_long_path_name] carries the long-path
    prefix or is shorter than 260 characters; a path that carries the prefix
    is returned as it is. *)
Theorem get_long_path_name_bounded (abspath : string -> string) (path : string) :
  (Py.startswith (get_long_path_name abspath path) "\\?\" = true \/
   (String.length (get_long_path_name abspath path) < 260)%nat) /\
  (Py.startswith path "\\?\" = true -> get_long_path_name abspath path = path).
Proof.
  unfold get_long_path_name. split.
  - destruct (Py.startswith path "\\?\") eqn:E; [now left|].
    destruct (Nat.leb 260 (String.length (abspath path))) eqn:L.
    + left. unfold Py.startswith. apply prefix_app.
    + right. now apply Nat.leb_gt in L.
  - now intros ->.
Qed.

Lemma get_long_path_name_bounded_witness :
  get_long_path_name (fun p => p) "\\?\C:\data" = "\\?\C:\data".
Proof.
  apply (get_long_path_name_bounded (fun p => p) "\\?\C:\data").
  reflexivity.
Defined.

(** X7: when [os.path.abspath] leaves its own results unchanged,
    [get_long_path_name] applied twice gives the same path as applied
    once. *)
Theorem get_long_path_name_idempotent (abspath : string -> string) (path : string) :
  (forall p, abspath (abspath p) = abspath p) ->
  get_long_path_name abspath (get_long_path_name abspath path)
  = get_long_path_name abspath path.
Proof.
  intros Hidem. unfold get_long_path_name.
  destruct (Py.startswith path "\\?\") eqn:E.
  - now rewrite E.
  - destruct (Nat.leb 260 (String.length (abspath path))) eqn:L.
    + assert (H : Py.startswith ("\\?\" ++ abspath path) "\\?\" = true)
        by apply prefix_app.
      now rewrite H.
    + destruct (Py.startswith (abspath path) "\\?\") eqn:E2; [reflexivity|].
      now rewrite Hidem, L.
Qed.

Lemma get_long_path_name_idempotent_witness :
  get_long_path_name (fun p => p) (get_long_path_name (fun p => p) "C:\Users\x")
  = get_long_path_name (fun p => p) "C:\Users\x".
Proof.
  apply (get_long_path_name_idempotent (fun p => p) "C:\Users\x").
  reflexivity.
Defined.

Lemma is_safe_to_delete_true_iff_witness :
  is_safe_to_delete true "C:\proj\BUILD"
  = (true, "Build artifacts (usually safe if not actively building)").
Proof.
  apply (is_safe_to_delete_true_iff
           true "C:\proj\BUILD" "Build artifacts (usually safe if not actively building)").
  split; [reflexivity|].
  exists "build". split; [|split; reflexivity].
  simpl. tauto.
Defined.

(** ** Scanner, continued *)

Section ScanEntries.

Variable nt : bool.
Variable abspath : string -> string.
Variables (only_hidden : bool) (threshold : Z).
Variable P : Entry -> Prop.
Hypothesis HP :
  forall path size is_file, threshold <= size -> P (classified nt path size is_file).

Lemma scandir_results_Forall (path : string) (listing : list node) :
  Forall P (scandir_results nt path only_hidden threshold listing).
Proof.
  unfold scandir_results. induction listing as [|c l IH]; simpl; [constructor|].
  apply Forall_app. split; [|assumption].
  destruct (skipped nt only_hidden c); [constructor|].
  destruct c as [name a size|name a r cl]; [|constructor].
  destruct (threshold <=? size) eqn:E; [|constructor].
  apply Z.leb_le in E. repeat constructor. now apply HP.
Qed.

Lemma subdir_round_Forall (item_path : string) (sub_results : list Entry) :
  Forall P sub_results -> Forall P (subdir_round nt threshold item_path sub_results).
Proof.
  intros H. unfold subdir_round. apply Forall_app. split; [assumption|].
  destruct (threshold <=? sum_sizes sub_results) eqn:E; [|constructor].
  apply Z.leb_le in E. repeat constructor. now apply HP.
Qed.

(** Whatever holds of every classified entry that meets the threshold
    holds of every entry of a scan. *)
Lemma scan_directory_Forall (n : node) :
  forall path, Forall P (scan_directory nt abspath path n only_hidden threshold).
Proof.
  induction n as [name a size | name a readable listing IH] using node_tree_ind;
    intros path.
  - simpl. unfold scan_file.
    destruct (threshold <=? size) eqn:E; [|constructor].
    apply Z.leb_le in E.
    destruct (negb only_hidden || (if nt then a else false)); [|constructor].
    repeat constructor. now apply HP.
  - simpl. destruct readable; [|constructor].
    apply Forall_app. split; [apply scandir_results_Forall|].
    induction IH as [|c l Hc Hl IHl]; simpl; [constructor|].
    apply Forall_app. split; [|assumption].
    destruct c as [cname ca csize|cname ca cr cl]; [constructor|].
    destruct (skipped nt only_hidden (Dir cname ca cr cl)); [constructor|].
    apply subdir_round_Forall. apply Hc.
Qed.

End ScanEntries.

Lemma classified_fields (nt : bool) (path : string) (size : Z) (is_file : bool) :
  e_path (classified nt path size is_file) = path /\
  e_size (classified nt path size is_file) = size /\
  e_is_file (classified nt path size is_file) = is_file /\
  (e_is_safe (classified nt path size is_file),
   e_reason (classified nt path size is_file)) = is_safe_to_delete nt path.
Proof.
  unfold classified. destruct (is_safe_to_delete nt path). simpl. auto.
Qed.

(** X8: every entry that [scan_directory] or [scan_with_progress] emits has
    a size of at least the threshold. *)
Theorem scan_entries_meet_threshold
        (nt : bool) (abspath : string -> string) (path : string) (n : node)
        (only_hidden : bool) (threshold items_scanned : Z) (e : Entry) :
  (In e (scan_directory nt abspath path n only_hidden threshold) ->
   threshold <= e_size e) /\
  (In e (fst (scan_with_progress nt abspath path n only_hidden threshold items_scanned)) ->
   threshold <= e_size e).
Proof.
  assert (H : Forall (fun e => threshold <= e_size e)
                     (scan_directory nt abspath path n only_hidden threshold)).
  { apply scan_directory_Forall. intros p size is_file Hs.
    now destruct (classified_fields nt p size is_file) as (_ & -> & _). }
  rewrite Forall_forall in H. rewrite scan_with_progress_eq. simpl. auto.
Qed.

Lemma scan_entries_meet_threshold_witness :
  5 <= e_size (mkEntry "C:\r\d\b" 10 true false "Unknown").
Proof.
  apply (scan_entries_meet_threshold true (fun p => p) "C:\r" flat_tree false 5 0).
  vm_compute. tauto.
Defined.

(** X9: every emitted entry carries the verdict and the reason that
    [is_safe_to_delete] gives for the entry's own path; so an entry whose
    path has a part in [PROTECTED_FOLDERS] is never marked safe. *)
Theorem scan_entries_classified
        (nt : bool) (abspath : string -> string) (path : string) (n : node)
        (only_hidden : bool) (threshold : Z) (e : Entry) :
  In e (scan_directory nt abspath path n only_hidden threshold) ->
  (e_is_safe e, e_reason e) = is_safe_to_delete nt (e_path e) /\
  (is_path_protected nt (e_path e) = true ->
   e_is_safe e = false /\ e_reason e = "System protected").
Proof.
  intros Hin.
  assert (H : Forall (fun e => (e_is_safe e, e_reason e) = is_safe_to_delete nt (e_path e))
                     (scan_directory nt abspath path n only_hidden threshold)).
  { apply scan_directory_Forall. intros p size is_file _.
    destruct (classified_fields nt p size is_file) as (-> & _ & _ & H). exact H. }
  rewrite Forall_forall in H. specialize (H e Hin). split; [assumption|].
  intros Hprot. rewrite (is_safe_to_delete_protected nt _ Hprot) in H.
  now inversion H.
Qed.

Lemma scan_entries_classified_witness :
  (false, "Unknown") = is_safe_to_delete true "C:\r\d\b".
Proof.
  apply (scan_entries_classified true (fun p => p) "C:\r" flat_tree false 5
                                 (mkEntry "C:\r\d\b" 10 true false "Unknown")).
  vm_compute. tauto.
Defined.

(** X10: the progress counter does not influence the scan:
    [scan_with_progress] returns the entries of [scan_directory], whatever
    value the counter starts from. *)
Theorem scan_with_progress_results
        (nt : bool) (abspath : string -> string) (path : string) (n : node)
        (only_hidden : bool) (threshold items_scanned : Z) :
  fst (scan_with_progress nt abspath path n only_hidden threshold items_scanned)
  = scan_directory nt abspath path n only_hidden threshold.
Proof.
  now rewrite scan_with_progress_eq.
Qed.

Lemma sum_sizes_cons (x : Entry) (l : list Entry) :
  sum_sizes (x :: l) = e_size x + sum_sizes l.
Proof.
  reflexivity.
Qed.






(** ** Reconciler and ranking, continued *)

Lemma dict_get_fresh (k : string) (l : list Entry) :
  ~ In k (map e_path l) -> dict_get k (map (fun e => (e_path e, e)) l) = None.
Proof.
  induction l as [|x l IH]; simpl; intros H; [reflexivity|].
  destruct (String.eqb_spec k (e_path x)) as [->|_]; [tauto|]. apply IH. tauto.
Qed.

Lemma dict_set_fresh (k : string) (v : Entry) (d : path_dict) :
  dict_get k d = None -> dict_set k v d = (d ++ [(k, v)])%list.
Proof.
  induction d as [|[k' v'] d IH]; simpl; [reflexivity|].
  destruct (String.eqb k k'); [discriminate|]. intros H. now rewrite IH.
Qed.

Lemma reconcile_distinct (l : list Entry) :
  NoDup (map e_path l) -> reconcile l = map (fun e => (e_path e, e)) l.
Proof.
  induction l as [|x l IH] using rev_ind; intros Hnd; [reflexivity|].
  rewrite map_app in Hnd. simpl in Hnd.
  assert (Hl : NoDup (map e_path l)) by (eapply NoDup_app_remove_r; eauto).
  assert (Hx : ~ In (e_path x) (map e_path l)).
  { apply NoDup_remove_2 in Hnd. now rewrite app_nil_r in Hnd. }
  rewrite reconcile_snoc, (IH Hl), map_app. simpl.
  unfold reconcile_step. rewrite (dict_get_fresh _ _ Hx).
  apply dict_set_fresh. now apply dict_get_fresh.
Qed.

Lemma dict_values_paths (d : path_dict) :
  dict_wf d -> map e_path (dict_values d) = map fst d.
Proof.
  intros [_ Hv]. unfold dict_values. rewrite map_map. apply map_ext_Forall.
  eapply Forall_impl; [|exact Hv]. auto.
Qed.

Lemma filtered_results_paths_NoDup (results : list Entry) :
  NoDup (map e_path (filtered_results results)).
Proof.
  unfold filtered_results. rewrite dict_values_paths by apply reconcile_wf.
  apply reconcile_wf.
Qed.

(** X12: a list whose paths are pairwise distinct passes the duplicate
    filter unchanged, order included; hence filtering twice gives the same
    list as filtering once. *)
Theorem filtered_results_distinct (results : list Entry) :
  (NoDup (map e_path results) -> filtered_results results = results) /\
  filtered_results (filtered_results results) = filtered_results results.
Proof.
  assert (H : forall l, NoDup (map e_path l) -> filtered_results l = l).
  { intros l Hnd. unfold filtered_results, dict_values.
    rewrite (reconcile_distinct l Hnd), map_map. simpl. apply map_id. }
  split; [apply H|]. apply H. apply filtered_results_paths_NoDup.
Qed.

Lemma filtered_results_distinct_witness :
  filtered_results [mkEntry "C:\r\node_modules\x" 3 true false "Unknown";
                    mkEntry "C:\r\node_modules" 3 false true "NPM packages"]
  = [mkEntry "C:\r\node_modules\x" 3 true false "Unknown";
     mkEntry "C:\r\node_modules" 3 false true "NPM packages"].
Proof.
  refine (proj1 (filtered_results_distinct
                   [mkEntry "C:\r\node_modules\x" 3 true false "Unknown";
                    mkEntry "C:\r\node_modules" 3 false true "NPM packages"]) _).
  simpl. repeat constructor; simpl; intuition discriminate.
Defined.

Lemma filtered_results_In (results : list Entry) (e : Entry) :
  In e (filtered_results results) -> In e results.
Proof.
  intros Hin. apply dict_wf_get in Hin; [|apply reconcile_wf].
  pose proof (reconcile_get results (e_path e)) as H. rewrite Hin in H.
  apply first_largest_In. tauto.
Qed.

(** X13: the duplicate filter only selects: every entry it returns is an
    entry of its input, and it returns at most as many entries as it got. *)
Theorem filtered_results_selects (results : list Entry) :
  (forall e, In e (filtered_results results) -> In e results) /\
  (List.length (filtered_results results) <= List.length results)%nat.
Proof.
  split; [apply filtered_results_In|].
  rewrite <- (length_map e_path (filtered_results results)).
  rewrite <- (length_map e_path results).
  apply NoDup_incl_length; [apply filtered_results_paths_NoDup|].
  intros p Hp. apply in_map_iff in Hp. destruct Hp as (e & <- & He).
  apply in_map. now apply filtered_results_In.
Qed.

Lemma filtered_results_selects_witness :
  In (mkEntry "C:\r\a" 9 true false "Unknown")
     [mkEntry "C:\r\a" 4 false false "Unknown";
      mkEntry "C:\r\a" 9 true false "Unknown"].
Proof.
  apply (filtered_results_selects
           [mkEntry "C:\r\a" 4 false false "Unknown";
            mkEntry "C:\r\a" 9 true false "Unknown"]).
  vm_compute. tauto.
Defined.

Lemma In_skipn_incl (A : Type) (n : nat) (l : list A) (x : A) :
  In x (skipn n l) -> In x l.
Proof.
  intros H. rewrite <- (firstn_skipn n l). apply in_or_app. now right.
Qed.

Lemma In_firstn_incl (A : Type) (n : nat) (l : list A) (x : A) :
  In x (firstn n l) -> In x l.
Proof.
  intros H. rewrite <- (firstn_skipn n l). apply in_or_app. now left.
Qed.

Lemma sorted_firstn_skipn (l : list Entry) :
  StronglySorted size_desc l ->
  forall n a b, In a (firstn n l) -> In b (skipn n l) -> e_size b <= e_size a.
Proof.
  induction 1 as [|x l Hs IH Hx]; intros n a b Ha Hb.
  - destruct n; simpl in Ha; tauto.
  - destruct n as [|n]; simpl in Ha, Hb; [tauto|].
    destruct Ha as [<-|Ha].
    + rewrite Forall_forall in Hx. apply Hx. eapply In_skipn_incl; eauto.
    + eapply IH; eauto.
Qed.

Lemma firstn_min_length (A : Type) (k : nat) (l : list A) :
  firstn (Nat.min k (List.length l)) l = firstn k l.
Proof.
  destruct (Nat.le_gt_cases k (List.length l)) as [H|H].
  - now rewrite Nat.min_l.
  - rewrite Nat.min_r by lia. rewrite firstn_all. symmetry. apply firstn_all2. lia.
Qed.

Lemma slice_to_prefix (l : list Entry) (top : Z) :
  slice_to l top = firstn (List.length (slice_to l top)) l.
Proof.
  unfold slice_to. destruct (top <? 0); rewrite length_firstn;
    now rewrite firstn_min_length.
Qed.

(** X14: the view is a prefix of the ranked list, no entry left out of the
    view is larger than an entry shown, and for a count of at least 0 the
    view holds that many entries or, if there are fewer, all of them. *)
Theorem top_results_largest (results : list Entry) (top : Z) :
  let ranked := sort_by_size (filtered_results results) in
  let view := top_results results top in
  view = firstn (List.length view) ranked /\
  (forall a b, In a view -> In b (skipn (List.length view) ranked) ->
               e_size b <= e_size a) /\
  (0 <= top -> List.length view = Nat.min (Z.to_nat top) (List.length ranked)).
Proof.
  intros ranked view. unfold view, top_results. fold ranked.
  split; [apply slice_to_prefix|]. split.
  - intros a b Ha Hb. rewrite slice_to_prefix in Ha.
    eapply sorted_firstn_skipn; eauto. apply sort_by_size_sorted.
  - intros H. rewrite slice_to_nonneg by assumption. apply length_firstn.
Qed.

Lemma top_results_largest_witness :
  List.length (top_results [mkEntry "C:\r\a" 4 true false "Unknown";
                            mkEntry "C:\r\b" 9 true false "Unknown";
                            mkEntry "C:\r\c" 6 false false "Unknown"] 2)
  = 2%nat.
Proof.
  refine (proj2 (proj2 (top_results_largest
                          [mkEntry "C:\r\a" 4 true false "Unknown";
                           mkEntry "C:\r\b" 9 true false "Unknown";
                           mkEntry "C:\r\c" 6 false false "Unknown"] 2)) _).
  lia.
Defined.

Lemma sum_sizes_perm (l1 l2 : list Entry) :
  Permutation l1 l2 -> sum_sizes l1 = sum_sizes l2.
Proof.
  induction 1; rewrite ?sum_sizes_cons in *; lia.
Qed.

Lemma sum_sizes_nonneg (l : list Entry) :
  Forall (fun e => 0 <= e_size e) l -> 0 <= sum_sizes l.
Proof.
  induction 1; rewrite ?sum_sizes_cons; [reflexivity|lia].
Qed.

(** X15: in the summary, [total_scan_size] is the sum over the reconciled
    entries whatever their order, and when no entry has a negative size,
    [displayed_size] lies between 0 and [total_scan_size]. *)
Theorem displayed_size_bounded (results : list Entry) (top : Z) :
  total_scan_size results = sum_sizes (filtered_results results) /\
  (Forall (fun e => 0 <= e_size e) results ->
   0 <= displayed_size results top <= total_scan_size results).
Proof.
  unfold total_scan_size, displayed_size, top_results.
  split; [apply sum_sizes_perm, sort_by_size_perm|].
  intros Hnn.
  set (ranked := sort_by_size (filtered_results results)).
  assert (Hr : Forall (fun e => 0 <= e_size e) ranked).
  { rewrite Forall_forall in *. intros e He. apply Hnn.
    apply filtered_results_In.
    eapply Permutation_in; [apply sort_by_size_perm|exact He]. }
  rewrite slice_to_prefix.
  set (k := List.length (slice_to ranked top)).
  rewrite <- (firstn_skipn k ranked) at 3. rewrite sum_sizes_app.
  assert (0 <= sum_sizes (firstn k ranked)).
  { apply sum_sizes_nonneg. rewrite Forall_forall in *.
    intros e He. apply Hr. eapply In_firstn_incl; eauto. }
  assert (0 <= sum_sizes (skipn k ranked)).
  { apply sum_sizes_nonneg. rewrite Forall_forall in *.
    intros e He. apply Hr. eapply In_skipn_incl; eauto. }
  lia.
Qed.

Lemma displayed_size_bounded_witness :
  0 <= displayed_size [mkEntry "C:\r\a" 4 true false "Unknown";
                       mkEntry "C:\r\b" 9 true false "Unknown"] 1
  <= total_scan_size [mkEntry "C:\r\a" 4 true false "Unknown";
                      mkEntry "C:\r\b" 9 true false "Unknown"].
Proof.
  apply (displayed_size_bounded
           [mkEntry "C:\r\a" 4 true false "Unknown";
            mkEntry "C:\r\b" 9 true false "Unknown"] 1).
  repeat constructor; simpl; lia.
Defined.

(** ** Deleter, continued *)

(** X16: [delete_item] returns [True] exactly when the path is a file or a
    directory and its removal succeeds; a path that is neither is left
    untouched; and a process that already runs as administrator never
    starts an elevation. *)
Theorem delete_item_true_iff (abspath : string -> string) (w : world) (path : string) :
  (snd (delete_item abspath w path) = Returned true
   <-> w_kind w <> Neither /\ w_removal w = RemovalOk) /\
  (w_kind w = Neither -> delete_item abspath w path = ([], Returned false)) /\
  (w_is_admin w = true -> ~ attempts_elevation (delete_item abspath w path)).
Proof.
  unfold delete_item, attempts_elevation. split; [|split].
  - destruct (w_kind w), (w_removal w), (w_is_admin w), (w_confirm w); simpl;
      split; intros H; try discriminate; try (split; congruence);
      try reflexivity; destruct H; congruence.
  - now intros ->.
  - intros ->.
    destruct (w_kind w), (w_removal w), (w_confirm w); simpl;
      intuition discriminate.
Qed.

Lemma delete_item_true_iff_witness :
  snd (delete_item (fun p => p) (mkWorld IsDir RemovalOk false false) "C:\Users\x\tmp")
  = Returned true.
Proof.
  apply (delete_item_true_iff (fun p => p) (mkWorld IsDir RemovalOk false false)
                              "C:\Users\x\tmp").
  split; [discriminate|reflexivity].
Defined.

(** ** The deletion loop *)

Lemma list_pop_length (index : nat) (l : list Entry) :
  (index < List.length l)%nat ->
  (List.length (list_pop index l) + 1 = List.length l)%nat.
Proof.
  intros H. unfold list_pop.
  rewrite length_app, length_firstn, length_skipn. lia.
Qed.

(** X17: a number below 1 or above the length of the displayed list is
    refused: the round reports an invalid number, asks nothing, deletes
    nothing and leaves the list as it is. *)
Theorem deletion_round_invalid_number
        (abspath : string -> string) (w : world) (answer : bool)
        (top_results : list Entry) (n : Z) :
  n < 1 \/ Z.of_nat (List.length top_results) < n ->
  deletion_round abspath w answer top_results (ChoiceNumber n)
  = ([UiInvalidNumber], RoundContinue top_results).
Proof.
  intros H. unfold deletion_round.
  destruct ((0 <=? n - 1) && (n - 1 <? Z.of_nat (List.length top_results))) eqn:E;
    [|reflexivity].
  apply andb_true_iff in E. destruct E as [E1 E2].
  apply Z.leb_le in E1. apply Z.ltb_lt in E2. lia.
Qed.

Lemma deletion_round_invalid_number_witness :
  deletion_round (fun p => p) (mkWorld IsFile RemovalOk true true) true
                 [mkEntry "C:\r\a" 4 true false "Unknown"] (ChoiceNumber 0)
  = ([UiInvalidNumber], RoundContinue [mkEntry "C:\r\a" 4 true false "Unknown"]).
Proof.
  apply (deletion_round_invalid_number
           (fun p => p) (mkWorld IsFile RemovalOk true true) true
           [mkEntry "C:\r\a" 4 true false "Unknown"] 0).
  left. lia.
Defined.

(** X18: a round calls [delete_item] only for the entry the typed number
    names and only after the user confirmed; and it changes the displayed
    list only by removing that one entry, after [delete_item] returned
    [True]. *)
Theorem deletion_round_effect
        (abspath : string -> string) (w : world) (answer : bool)
        (top_results : list Entry) (c : choice) :
  (forall path events,
      In (UiDeleteItem path events)
         (fst (deletion_round abspath w answer top_results c)) ->
      answer = true /\
      exists n item,
        c = ChoiceNumber n /\
        nth_error top_results (Z.to_nat (n - 1)) = Some item /\
        1 <= n <= Z.of_nat (List.length top_results) /\
        path = e_path item /\
        events = fst (delete_item abspath w path)) /\
  (forall l,
      snd (deletion_round abspath w answer top_results c) = RoundContinue l ->
      l = top_results \/
      exists n item,
        c = ChoiceNumber n /\
        nth_error top_results (Z.to_nat (n - 1)) = Some item /\
        snd (delete_item abspath w (e_path item)) = Returned true /\
        l = list_pop (Z.to_nat (n - 1)) top_results /\
        (List.length l + 1 = List.length top_results)%nat).
Proof.
  unfold deletion_round.
  destruct c as [| |n]; simpl;
    [split; [intuition discriminate|intros l H; inversion H; auto]..|].
  destruct ((0 <=? n - 1) && (n - 1 <? Z.of_nat (List.length top_results))) eqn:E;
    [|simpl; split; [intuition discriminate|intros l H; inversion H; auto]].
  apply andb_true_iff in E. destruct E as [E1 E2].
  apply Z.leb_le in E1. apply Z.ltb_lt in E2.
  destruct (nth_error top_results (Z.to_nat (n - 1))) as [item|] eqn:Hnth;
    [|simpl; split; [intuition discriminate|intros l H; inversion H; auto]].
  destruct answer; simpl;
    [|split; [intuition discriminate|intros l H; inversion H; auto]].
  destruct (delete_item abspath w (e_path item)) as [events out] eqn:Hdel.
  destruct out as [[|]|code]; simpl; split.
  - intros path evs [H|[H|[H|[]]]]; try discriminate.
    inversion H; subst. split; [reflexivity|].
    exists n, item. rewrite Hdel. repeat split; auto; lia.
  - intros l H. inversion H; subst. right. exists n, item.
    rewrite Hdel. repeat split; auto. apply list_pop_length. lia.
  - intros path evs [H|[H|[H|[]]]]; try discriminate.
    inversion H; subst. split; [reflexivity|].
    exists n, item. rewrite Hdel. repeat split; auto; lia.
  - intros l H. inversion H; auto.
  - intros path evs [H|[H|[]]]; try discriminate.
    inversion H; subst. split; [reflexivity|].
    exists n, item. rewrite Hdel. repeat split; auto; lia.
  - intros l H. discriminate.
Qed.

Lemma deletion_round_effect_witness :
  [mkEntry "C:\r\b" 9 true false "Unknown"]
  = [mkEntry "C:\r\b" 9 true false "Unknown"] \/
  exists n item,
    ChoiceNumber 1 = ChoiceNumber n /\
    nth_error [mkEntry "C:\r\a" 4 true false "Unknown";
               mkEntry "C:\r\b" 9 true false "Unknown"] (Z.to_nat (n - 1)) = Some item /\
    snd (delete_item (fun p => p) (mkWorld IsFile RemovalOk false false) (e_path item))
    = Returned true /\
    [mkEntry "C:\r\b" 9 true false "Unknown"]
    = list_pop (Z.to_nat (n - 1))
               [mkEntry "C:\r\a" 4 true false "Unknown";
                mkEntry "C:\r\b" 9 true false "Unknown"] /\
    (List.length [mkEntry "C:\r\b" 9 true false "Unknown"] + 1
     = List.length [mkEntry "C:\r\a" 4 true false "Unknown";
                    mkEntry "C:\r\b" 9 true false "Unknown"])%nat.
Proof.
  pose proof (proj2 (deletion_round_effect
                       (fun p => p) (mkWorld IsFile RemovalOk false false) true
                       [mkEntry "C:\r\a" 4 true false "Unknown";
                        mkEntry "C:\r\b" 9 true false "Unknown"] (ChoiceNumber 1))
                    [mkEntry "C:\r\b" 9 true false "Unknown"] eq_refl) as H.
  destruct H as [H|H]; [discriminate|]. right. exact H.
Defined.

(** ** Display *)

Lemma length_drop (n : nat) (s : string) :
  String.length (Py.drop n s) = (String.length s - n)%nat.
Proof.
  revert s. induction n as [|n IH]; intros [|c s]; simpl; auto.
Qed.

(** X19: the path shown in a table row is never longer than 50 characters:
    a path of at most 50 characters is shown as it is, a longer one as three
    dots followed by its last 47 characters. *)
Theorem truncate_display_length (display_path : string) :
  String.length (truncate_display display_path)
  = Nat.min 50 (String.length display_path) /\
  ((String.length display_path <= 50)%nat ->
   truncate_display display_path = display_path) /\
  ((50 < String.length display_path)%nat ->
   truncate_display display_path = "..." ++ Py.last_n 47 display_path).
Proof.
  unfold truncate_display.
  destruct (Nat.ltb 50 (String.length display_path)) eqn:E.
  - apply Nat.ltb_lt in E. repeat split; try lia.
    rewrite length_app_string. unfold Py.last_n. rewrite length_drop.
    change (String.length "...") with 3%nat. lia.
  - apply Nat.ltb_ge in E. repeat split; try lia.
Qed.

Lemma truncate_display_length_witness :
  truncate_display
    "C:\Users\x\projects\very\long\directory\names\that\do\not\fit\node_modules"
  = "..." ++ Py.last_n 47
       "C:\Users\x\projects\very\long\directory\names\that\do\not\fit\node_modules".
Proof.
  apply (truncate_display_length
    "C:\Users\x\projects\very\long\directory\names\that\do\not\fit\node_modules").
  simpl. lia.
Defined.

(** ** format_size *)

Local Open Scope Q_scope.

Lemma pow1024_0 : pow1024 0 == 1.
Proof.
  reflexivity.
Qed.

Lemma pow1024_S (k : nat) : pow1024 (S k) == 1024 * pow1024 k.
Proof.
  unfold pow1024. rewrite Nat2Z.inj_succ, Z.pow_succ_r by lia.
  rewrite inject_Z_mult. reflexivity.
Qed.

Lemma pow1024_pos (k : nat) : 0 < pow1024 k.
Proof.
  unfold pow1024. change 0 with (inject_Z 0). rewrite <- Zlt_Qlt.
  apply Z.pow_pos_nonneg; lia.
Qed.

(** The loop stops at the unit [i + k] when the value lies between
    [1024^k] and [1024^(k+1)], or at the last unit. *)
Lemma format_size_loop_spec (fuel : nat) :
  forall (v : Q) (i k : nat),
    (i + fuel = List.length size_names - 1)%nat ->
    (k <= fuel)%nat ->
    pow1024 k <= v ->
    ((k < fuel)%nat -> v < pow1024 (S k)) ->
    exists v', format_size_loop fuel v i = (v', (i + k)%nat) /\ v' * pow1024 k == v.
Proof.
  induction fuel as [|fuel IH]; intros v i k Hi Hk Hlo Hhi.
  - assert (k = 0)%nat by lia. subst k. exists v. split.
    + simpl. f_equal. lia.
    + rewrite pow1024_0. ring.
  - cbn [format_size_loop].
    assert (Hlt : Nat.ltb i (List.length size_names - 1) = true)
      by (apply Nat.ltb_lt; lia).
    rewrite Hlt, andb_true_r.
    destruct k as [|k].
    + assert (Hv : v < 1024).
      { specialize (Hhi ltac:(lia)). rewrite pow1024_S, pow1024_0 in Hhi. lra. }
      destruct (Qle_bool 1024 v) eqn:E.
      * apply Qle_bool_iff in E. lra.
      * exists v. split; [f_equal; lia|]. rewrite pow1024_0. ring.
    + assert (Hv : 1024 <= v).
      { rewrite pow1024_S in Hlo. pose proof (pow1024_pos k).
        assert (1 <= pow1024 k).
        { unfold pow1024. change 1 with (inject_Z 1). rewrite <- Zle_Qle.
          pose proof (Z.pow_pos_nonneg 1024 (Z.of_nat k)). lia. }
        lra. }
      apply Qle_bool_iff in Hv. rewrite Hv.
      destruct (IH (v / 1024) (S i) k) as (v' & Hloop & Hv').
      * simpl in *. lia.
      * lia.
      * rewrite pow1024_S in Hlo. apply Qle_shift_div_l; lra.
      * intros Hk'. specialize (Hhi ltac:(lia)).
        rewrite (pow1024_S (S k)) in Hhi. apply Qlt_shift_div_r; lra.
      * exists v'. split.
        -- rewrite Hloop. f_equal. lia.
        -- rewrite pow1024_S.
           assert (v' * (1024 * pow1024 k) == 1024 * (v' * pow1024 k)) as -> by ring.
           rewrite Hv'. field.
Qed.

Local Close Scope Q_scope.

(** X20: for a size from [1024^k] up to, but not including, [1024^(k+1)],
    with [k] at most 5, [format_size] shows the size divided by [1024^k]
    with the unit number [k] of B, KB, MB, GB, TB, PB; from [1024^5] on the
    unit is PB. Sizes are taken below 2^53, where the exact arithmetic of
    the model is that of binary64. *)
Theorem format_size_unit (n : Z) (k : nat) :
  (k <= 5)%nat ->
  1024 ^ Z.of_nat k <= n ->
  ((k < 5)%nat -> n < 1024 ^ Z.of_nat (S k)) ->
  n < 2 ^ 53 ->
  snd (format_size_scaled n) = k /\
  (fst (format_size_scaled n) * pow1024 k == inject_Z n)%Q /\
  format_size n = format_2f (fst (format_size_scaled n)) ++ nth k size_names "".
Proof.
  intros Hk Hlo Hhi _.
  destruct (format_size_loop_spec 5 (inject_Z n) 0 k) as (v & Hloop & Hv).
  - reflexivity.
  - assumption.
  - unfold pow1024. now rewrite <- Zle_Qle.
  - intros Hk'. unfold pow1024. rewrite <- Zlt_Qlt. now apply Hhi.
  - unfold format_size, format_size_scaled.
    change (List.length size_names - 1)%nat with 5%nat.
    rewrite Hloop. simpl fst. simpl snd. repeat split; try assumption.
    assert (0 < 1024 ^ Z.of_nat k) by (apply Z.pow_pos_nonneg; lia).
    destruct (n =? 0) eqn:E; [apply Z.eqb_eq in E; lia|reflexivity].
Qed.

Lemma format_size_unit_witness :
  snd (format_size_scaled 5000000) = 2%nat.
Proof.
  apply (format_size_unit 5000000 2); simpl; lia.
Defined.

Lemma round_half_even_int (x : Q) (m : Z) :
  (x == inject_Z m)%Q -> round_half_even x = m.
Proof.
  intros H. unfold round_half_even.
  rewrite (Qfloor_comp _ _ H), Qfloor_Z.
  assert (Hlt : (x - inject_Z m < 1 # 2)%Q) by (rewrite H; lra).
  rewrite Qlt_alt in Hlt. now rewrite Hlt.
Qed.

Lemma format_2f_int (n : Z) :
  0 <= n -> format_2f (inject_Z n) = str_of_Z n ++ ".00".
Proof.
  intros H. unfold format_2f.
  assert (Hq : (0 <= inject_Z n)%Q) by (change 0%Q with (inject_Z 0); now rewrite <- Zle_Qle).
  rewrite (round_half_even_int _ (n * 100)).
  - apply Qle_bool_iff in Hq. rewrite Hq.
    rewrite Z.div_mul by lia. rewrite Z.mod_mul by lia.
    replace (n * 100) with (n * 10 * 10) by lia. rewrite Z.mod_mul by lia.
    reflexivity.
  - rewrite Qabs_pos by assumption. rewrite inject_Z_mult. reflexivity.
Qed.

(** X21: a size from 1 to 1023 bytes is shown as the number itself with
    two zero decimals and the unit B. *)
Theorem format_size_bytes (n : Z) :
  0 < n < 1024 -> format_size n = str_of_Z n ++ ".00B".
Proof.
  intros H. unfold format_size, format_size_scaled.
  destruct (n =? 0) eqn:E; [apply Z.eqb_eq in E; lia|].
  cbn [format_size_loop List.length size_names Nat.sub].
  assert (Hle : Qle_bool 1024 (inject_Z n) = false).
  { destruct (Qle_bool 1024 (inject_Z n)) eqn:E'; [|reflexivity].
    apply Qle_bool_iff in E'. change 1024%Q with (inject_Z 1024) in E'.
    rewrite <- Zle_Qle in E'. lia. }
  rewrite Hle. cbn [andb nth]. rewrite format_2f_int by lia.
  rewrite append_assoc_string. reflexivity.
Qed.

Lemma format_size_bytes_witness : format_size 512 = str_of_Z 512 ++ ".00B".
Proof.
  apply (format_size_bytes 512). lia.
Defined.

(** ** Threshold parser, continued *)

(** X22: the threshold text is read without regard to letter case. *)
Theorem parse_threshold_case_insensitive (threshold : string) :
  parse_threshold (Py.lower threshold) = parse_threshold threshold /\
  parse_threshold (Py.upper threshold) = parse_threshold threshold.
Proof.
  destruct threshold as [|c s]; [split; reflexivity|].
  unfold parse_threshold. cbn [Py.lower Py.upper].
  rewrite ascii_lower_idem, lower_idem, ascii_lower_upper, lower_upper.
  split; reflexivity.
Qed.

Lemma read_digits_step (c : ascii) (s : string) (acc : Z) (count : nat) (d : Z) :
  digit_value c = Some d ->
  read_digits (String c s) acc count = read_digits s (10 * acc + d) (S count).
Proof.
  intros H. simpl. now rewrite H.
Qed.

Ltac read_digit IH k :=
  cbn [NilEmpty.string_of_uint Pos.of_uint_acc Pos.of_uint];
  rewrite (read_digits_step _ _ _ _ k) by reflexivity;
  match goal with
  | |- read_digits _ ?z _ = Some (Zpos (Pos.of_uint_acc _ ?p), _) =>
      replace z with (Zpos p) by lia
  | |- read_digits _ ?z _ = Some (Z.of_N (Npos (Pos.of_uint_acc _ ?p)), _) =>
      replace z with (Zpos p) by lia
  end;
  rewrite IH; f_equal; f_equal; cbn [String.length]; lia.

(** Reading the digits that the decimal printer wrote gives the number
    back, with the count of digits. *)
Lemma read_digits_uint_pos (d : uint) :
  forall (acc : positive) (count : nat),
    read_digits (NilEmpty.string_of_uint d) (Zpos acc) count
    = Some (Zpos (Pos.of_uint_acc d acc),
            (count + String.length (NilEmpty.string_of_uint d))%nat).
Proof.
  induction d; intros acc count; [simpl; f_equal; f_equal; lia|..].
  - read_digit IHd 0.
  - read_digit IHd 1.
  - read_digit IHd 2.
  - read_digit IHd 3.
  - read_digit IHd 4.
  - read_digit IHd 5.
  - read_digit IHd 6.
  - read_digit IHd 7.
  - read_digit IHd 8.
  - read_digit IHd 9.
Qed.

Lemma read_digits_uint (d : uint) :
  forall count : nat,
    read_digits (NilEmpty.string_of_uint d) 0 count
    = Some (Z.of_N (Pos.of_uint d),
            (count + String.length (NilEmpty.string_of_uint d))%nat).
Proof.
  induction d; intros count; [simpl; f_equal; f_equal; lia|..].
  - cbn [NilEmpty.string_of_uint Pos.of_uint].
    rewrite (read_digits_step _ _ _ _ 0) by reflexivity.
    change (10 * 0 + 0) with 0. rewrite IHd. f_equal. f_equal.
    cbn [String.length]. lia.
  - read_digit read_digits_uint_pos 1.
  - read_digit read_digits_uint_pos 2.
  - read_digit read_digits_uint_pos 3.
  - read_digit read_digits_uint_pos 4.
  - read_digit read_digits_uint_pos 5.
  - read_digit read_digits_uint_pos 6.
  - read_digit read_digits_uint_pos 7.
  - read_digit read_digits_uint_pos 8.
  - read_digit read_digits_uint_pos 9.
Qed.

Lemma digits_only_uint (d : uint) : digits_only (NilEmpty.string_of_uint d) = true.
Proof.
  induction d; simpl; auto.
Qed.

Lemma str_of_Z_digits (n : Z) :
  0 <= n ->
  digits_only (str_of_Z n) = true /\
  exists count, read_digits (str_of_Z n) 0 0 = Some (n, S count).
Proof.
  intros Hn. unfold str_of_Z.
  pose proof (DecimalN.Unsigned.of_to (Z.to_N n)) as Hof.
  unfold N.of_uint in Hof.
  destruct (N.to_uint (Z.to_N n)) as [|d|d|d|d|d|d|d|d|d|d] eqn:E.
  1:{ simpl in Hof. split; [reflexivity|]. exists 0%nat.
      assert (n = 0) by lia. subst n. reflexivity. }
  all: split; [apply digits_only_uint|].
  all: unfold NilZero.string_of_uint; rewrite read_digits_uint, Hof, Z2N.id by lia.
  all: cbn [NilEmpty.string_of_uint String.length]; eexists; f_equal; f_equal;
    simpl; reflexivity.
Qed.

Lemma is_digit_lower (c : ascii) : is_digit c = true -> Py.ascii_lower c = c.
Proof.
  destruct c as [[] [] [] [] [] [] [] []]; try reflexivity; discriminate.
Qed.

Lemma is_digit_not_point (c : ascii) : is_digit c = true -> Ascii.eqb c "." = false.
Proof.
  destruct c as [[] [] [] [] [] [] [] []]; try reflexivity; discriminate.
Qed.

Lemma digits_only_lower (s : string) : digits_only s = true -> Py.lower s = s.
Proof.
  induction s as [|c s IH]; simpl; [reflexivity|].
  intros H. apply andb_true_iff in H. destruct H as [Hc Hs].
  now rewrite (is_digit_lower c Hc), IH.
Qed.

Lemma digits_only_no_point (s : string) :
  digits_only s = true -> Py.find_from (fun c => Ascii.eqb c ".") 0 s = None.
Proof.
  induction s as [|c s IH]; simpl; [reflexivity|].
  intros H. apply andb_true_iff in H. destruct H as [Hc Hs].
  now rewrite (is_digit_not_point c Hc), IH.
Qed.

Lemma float_digits (s : string) (n : Z) (count : nat) :
  digits_only s = true ->
  read_digits s 0 0 = Some (n, S count) ->
  float s = Some (inject_Z n).
Proof.
  intros Hd Hr.
  assert (Hu : float_unsigned s = Some (inject_Z n)).
  { unfold float_unsigned. now rewrite (digits_only_no_point s Hd), Hr. }
  destruct s as [|c s]; [exact Hu|].
  simpl in Hd. apply andb_true_iff in Hd. destruct Hd as [Hc _].
  rewrite <- Hu. clear - Hc.
  destruct c as [[] [] [] [] [] [] [] []]; try reflexivity; discriminate.
Qed.

Lemma last_n_app2 (a b : string) :
  String.length b = 2%nat -> Py.last_n 2 (a ++ b) = b.
Proof.
  intros H. rewrite <- H. apply last_n_app.
Qed.

Lemma but_last_n_app2 (a b : string) :
  String.length b = 2%nat -> Py.but_last_n 2 (a ++ b) = a.
Proof.
  intros H. rewrite <- H. apply but_last_n_app.
Qed.

Lemma int_of_product (n factor : Z) :
  int_of (inject_Z n * inject_Z factor) = n * factor.
Proof.
  unfold int_of. simpl. apply Z.quot_1_r.
Qed.

(** X23: a non-negative whole number written in decimal and followed by
    one of the units KB, MB, GB, TB, in any letter case, parses to the
    number times the unit's factor. The product is taken below 2^53, where
    the exact arithmetic of the model is that of binary64. *)
Theorem parse_threshold_decimal_unit (n : Z) (suffix u : string) (factor : Z) :
  0 <= n ->
  In (u, factor) units ->
  String.length u = 2%nat ->
  Py.lower suffix = u ->
  n * factor < 2 ^ 53 ->
  parse_threshold (str_of_Z n ++ suffix) = Some (n * factor).
Proof.
  intros Hn Hin Hlen Hsuffix _.
  destruct (str_of_Z_digits n Hn) as (Hd & count & Hr).
  pose proof (float_digits _ _ _ Hd Hr) as Hf.
  assert (Hne : exists c s', str_of_Z n = String c s').
  { destruct (str_of_Z n) as [|c s']; [discriminate|eauto]. }
  destruct Hne as (c & s' & Hs).
  unfold parse_threshold.
  rewrite Hs at 1. cbn [String.append].
  rewrite lower_app, (digits_only_lower _ Hd), Hsuffix.
  rewrite (last_n_app2 _ _ Hlen), (but_last_n_app2 _ _ Hlen).
  simpl in Hin.
  destruct Hin as [H|[H|[H|[H|[H|[]]]]]]; inversion H; subst u factor;
    try discriminate;
    cbn [Py.mem map fst units existsb String.eqb Ascii.eqb Bool.eqb orb];
    rewrite Hf; cbn [units_get units String.eqb Ascii.eqb Bool.eqb];
    now rewrite int_of_product.
Qed.

Lemma parse_threshold_decimal_unit_witness :
  parse_threshold (str_of_Z 250 ++ "Mb") = Some (250 * 1024 ^ 2).
Proof.
  apply (parse_threshold_decimal_unit 250 "Mb" "mb" (1024 ^ 2)).
  - lia.
  - simpl. tauto.
  - reflexivity.
  - reflexivity.
  - reflexivity.
Defined.

Lemma digits_only_drop (k : nat) (s : string) :
  digits_only s = true -> digits_only (Py.drop k s) = true.
Proof.
  revert s. induction k as [|k IH]; intros [|c s] H; simpl; auto.
  simpl in H. apply andb_true_iff in H. apply IH. tauto.
Qed.

Lemma digits_not_unit (t : string) :
  digits_only t = true ->
  Py.mem t (map fst units) = false /\
  Py.mem t (map (fun k => Py.take 1 (fst k)) units) = false.
Proof.
  destruct t as [|c t]; [split; reflexivity|].
  simpl digits_only. intros H. apply andb_true_iff in H. destruct H as [Hc _].
  destruct c as [[] [] [] [] [] [] [] []]; try discriminate Hc; split; reflexivity.
Qed.

(** X24: a non-negative whole number written in decimal without a unit
    parses to itself, a count of bytes. The number is taken below 2^53,
    where the exact arithmetic of the model is that of binary64. *)
Theorem parse_threshold_plain_number (n : Z) :
  0 <= n -> n < 2 ^ 53 -> parse_threshold (str_of_Z n) = Some n.
Proof.
  intros Hn _.
  destruct (str_of_Z_digits n Hn) as (Hd & count & Hr).
  pose proof (float_digits _ _ _ Hd Hr) as Hf.
  unfold parse_threshold.
  destruct (str_of_Z n) as [|c s'] eqn:Hs; [discriminate|].
  rewrite (digits_only_lower _ Hd).
  destruct (digits_not_unit (Py.last_n 2 (String c s'))) as [-> _];
    [apply digits_only_drop; assumption|].
  destruct (digits_not_unit (Py.last_n 1 (String c s'))) as [_ ->];
    [apply digits_only_drop; assumption|].
  rewrite Hf. cbn [units_get units String.eqb Ascii.eqb Bool.eqb].
  rewrite int_of_product. f_equal. lia.
Qed.

Lemma parse_threshold_plain_number_witness :
  parse_threshold (str_of_Z 4096) = Some 4096.
Proof.
  apply (parse_threshold_plain_number 4096); lia.
Defined.

(** X25: a unit KB, MB, GB or TB, in any letter case, with no number in
    front of it is rejected: [float] raises [ValueError] on the empty
    text. *)
Theorem parse_threshold_unit_alone (suffix u : string) (factor : Z) :
  In (u, factor) units ->
  String.length u = 2%nat ->
  Py.lower suffix = u ->
  parse_threshold suffix = None.
Proof.
  intros Hin Hlen Hsuffix. unfold parse_threshold.
  destruct suffix as [|c s]; [subst u; discriminate|].
  rewrite Hsuffix. simpl in Hin.
  destruct Hin as [H|[H|[H|[H|[H|[]]]]]]; inversion H; subst u factor;
    try discriminate; reflexivity.
Qed.

Lemma parse_threshold_unit_alone_witness : parse_threshold "Gb" = None.
Proof.
  apply (parse_threshold_unit_alone "Gb" "gb" (1024 ^ 3)).
  - simpl. tauto.
  - reflexivity.
  - reflexivity.
Defined.

(** ** pathlib on drive-absolute paths *)

Lemma is_sep_false (c : ascii) :
  OsPath.is_sep true c = false ->
  Ascii.eqb c OsPath.backslash = false /\ Ascii.eqb c OsPath.slash = false.
Proof.
  unfold OsPath.is_sep. simpl. intros H. apply orb_false_iff in H. tauto.
Qed.

Lemma replace_char_app (a b : ascii) (s t : string) :
  Py.replace_char a b (s ++ t) = Py.replace_char a b s ++ Py.replace_char a b t.
Proof.
  induction s as [|c s IH]; simpl; [reflexivity|]. now rewrite IH.
Qed.

Lemma replace_char_no_sep (s : string) :
  no_sep s = true -> Py.replace_char OsPath.slash OsPath.backslash s = s.
Proof.
  induction s as [|c s IH]; simpl; [reflexivity|].
  intros H. apply andb_true_iff in H. destruct H as [Hc Hs].
  apply negb_true_iff in Hc. destruct (is_sep_false c Hc) as [_ ->].
  now rewrite IH.
Qed.

Lemma plain_segment_no_sep (s : string) : plain_segment s = true -> no_sep s = true.
Proof.
  unfold plain_segment. intros H. apply andb_true_iff in H. tauto.
Qed.

Lemma replace_char_concat (segments : list string) :
  forallb plain_segment segments = true ->
  Py.replace_char OsPath.slash OsPath.backslash (String.concat "\" segments)
  = String.concat "\" segments.
Proof.
  induction segments as [|x l IH]; [reflexivity|].
  intros H. cbn [forallb] in H. apply andb_true_iff in H. destruct H as [Hx Hl].
  apply plain_segment_no_sep in Hx.
  destruct l as [|y l]; [now apply replace_char_no_sep|].
  cbn [String.concat] in *. rewrite !replace_char_app.
  rewrite (replace_char_no_sep x Hx), (IH Hl). reflexivity.
Qed.

Lemma split_acc_no_sep (seg cur rest : string) :
  no_sep seg = true ->
  Py.split_acc OsPath.backslash cur (seg ++ rest)
  = Py.split_acc OsPath.backslash (cur ++ seg) rest.
Proof.
  revert cur. induction seg as [|c seg IH]; intros cur H.
  - simpl. f_equal. clear. induction cur as [|x cur IH]; simpl; congruence.
  - simpl in H. apply andb_true_iff in H. destruct H as [Hc Hs].
    apply negb_true_iff in Hc. destruct (is_sep_false c Hc) as [Hb _].
    cbn [String.append Py.split_acc]. rewrite Hb, (IH _ Hs).
    f_equal. now rewrite append_assoc_string.
Qed.

Lemma append_nil_r (s : string) : s ++ "" = s.
Proof.
  induction s as [|c s IH]; simpl; congruence.
Qed.

(** Splitting the segments joined by backslashes gives the segments back. *)
Lemma split_concat (x : string) (l : list string) :
  forallb plain_segment (x :: l) = true ->
  Py.split OsPath.backslash (String.concat "\" (x :: l)) = x :: l.
Proof.
  unfold Py.split. revert x. induction l as [|y l IH]; intros x H.
  - cbn [forallb] in H. apply andb_true_iff in H. destruct H as [Hx _].
    apply plain_segment_no_sep in Hx.
    cbn [String.concat]. rewrite <- (append_nil_r x) at 1.
    now rewrite split_acc_no_sep.
  - cbn [forallb] in H. apply andb_true_iff in H. destruct H as [Hx Hl].
    apply plain_segment_no_sep in Hx.
    cbn [String.concat]. rewrite split_acc_no_sep by assumption.
    cbn [String.append Py.split_acc].
    change (Ascii.eqb "\" OsPath.backslash) with true. cbv iota.
    f_equal. now apply IH.
Qed.

Lemma filter_plain_segments (l : list string) :
  forallb plain_segment l = true ->
  filter (fun x => negb (String.eqb x "") && negb (String.eqb x ".")) l = l.
Proof.
  induction l as [|x l IH]; simpl; [reflexivity|].
  intros H. apply andb_true_iff in H. destruct H as [Hx Hl].
  unfold plain_segment in Hx. apply andb_true_iff in Hx. destruct Hx as [Hx _].
  rewrite Hx, IH; auto.
Qed.

Lemma nt_splitroot_drive (drive : ascii) (rest : string) :
  OsPath.is_sep true drive = false ->
  OsPath.nt_splitroot (String drive (":\" ++ rest)) = (String drive ":", "\", rest).
Proof.
  intros Hd. destruct (is_sep_false drive Hd) as [Hb Hsl].
  unfold OsPath.backslash, OsPath.slash in *.
  unfold OsPath.nt_splitroot, OsPath.backslash, OsPath.slash.
  cbn [String.append Py.replace_char Py.take Py.drop]. rewrite Hsl.
  cbn [String.eqb]. rewrite Hb.
  reflexivity.
Qed.

Lemma parse_path_drive (drive : ascii) (segments : list string) :
  OsPath.is_sep true drive = false ->
  forallb plain_segment segments = true ->
  Pathlib.parse_path true (drive_path drive segments)
  = (String drive ":", "\", segments).
Proof.
  intros Hd Hs. destruct (is_sep_false drive Hd) as [Hb Hsl].
  unfold Pathlib.parse_path, drive_path.
  cbn [Py.replace_char String.append]. rewrite Hsl.
  change (Ascii.eqb ":" OsPath.slash) with false.
  change (Ascii.eqb "\" OsPath.slash) with false. cbv iota.
  rewrite (replace_char_concat _ Hs).
  unfold OsPath.splitroot.
  change (String drive (String ":" (String "\" (String.concat "\" segments))))
    with (String drive (":\" ++ String.concat "\" segments)).
  rewrite (nt_splitroot_drive _ _ Hd).
  cbn [andb String.eqb Ascii.eqb Bool.eqb].
  destruct segments as [|x l].
  - reflexivity.
  - unfold OsPath.sep. rewrite (split_concat x l Hs), (filter_plain_segments _ Hs).
    reflexivity.
Qed.

Lemma is_protected_segment (before name after protected : string) :
  In protected PROTECTED_FOLDERS ->
  Py.lower name = Py.lower protected ->
  after = "" \/ (exists rest, after = "\" ++ rest) ->
  is_protected (before ++ "\" ++ name ++ after) = true.
Proof.
  intros Hin Hname Hafter. unfold is_protected.
  apply existsb_exists. exists protected. split; [assumption|].
  destruct Hafter as [->|[rest ->]].
  - rewrite append_nil_r, !lower_app, Hname. change (Py.lower "\") with "\".
    rewrite (endswith_app (Py.lower before) ("\" ++ Py.lower protected)).
    now rewrite orb_true_r.
  - rewrite !lower_app, Hname. change (Py.lower "\") with "\".
    replace (Py.lower before ++ "\" ++ Py.lower protected ++ "\" ++ Py.lower rest)
      with (Py.lower before ++ ("\" ++ Py.lower protected ++ "\") ++ Py.lower rest)
      by now rewrite !append_assoc_string.
    now rewrite contains_app.
Qed.

Lemma concat_around (l1 l2 : list string) (x : string) :
  forall pre,
  exists before after,
    pre ++ "\" ++ String.concat "\" (l1 ++ x :: l2) = before ++ "\" ++ x ++ after /\
    (after = "" \/ exists rest, after = "\" ++ rest).
Proof.
  induction l1 as [|a l1 IH]; intros pre.
  - exists pre. destruct l2 as [|y l2].
    + exists "". split; [|now left]. cbn [app String.concat].
      now rewrite append_nil_r.
    + exists ("\" ++ String.concat "\" (y :: l2)). split; [reflexivity|]. eauto.
  - destruct (IH (pre ++ "\" ++ a)) as (before & after & Heq & Hafter).
    exists before, after. split; [|assumption]. rewrite <- Heq.
    change ((a :: l1) ++ x :: l2)%list with (a :: (l1 ++ x :: l2))%list.
    destruct (l1 ++ x :: l2)%list eqn:E; [destruct l1; discriminate|].
    cbn [String.concat]. now rewrite !append_assoc_string.
Qed.

(** X26: on a drive-absolute Windows path made of plain segments,
    [Path(path).parts] is the drive root followed by the segments, and
    [Path(path).name] is the last segment. If one segment is a name of
    [PROTECTED_FOLDERS], [is_path_protected] and [is_protected] both answer
    yes and [is_safe_to_delete] answers "System protected". *)
Theorem drive_path_protected
        (drive : ascii) (segs1 segs2 : list string) (seg : string) :
  OsPath.is_sep true drive = false ->
  forallb plain_segment (segs1 ++ seg :: segs2) = true ->
  let path := drive_path drive (segs1 ++ seg :: segs2) in
  Pathlib.parts true path = (String drive ":\") :: (segs1 ++ seg :: segs2) /\
  Pathlib.name true path = last (segs1 ++ seg :: segs2) "" /\
  (In seg PROTECTED_FOLDERS ->
   is_path_protected true path = true /\
   is_protected path = true /\
   is_safe_to_delete true path = (false, "System protected")).
Proof.
  intros Hd Hs path.
  assert (Hparts : Pathlib.parts true path
                   = (String drive ":\") :: (segs1 ++ seg :: segs2)).
  { unfold Pathlib.parts, path. now rewrite (parse_path_drive _ _ Hd Hs). }
  split; [exact Hparts|]. split.
  { unfold Pathlib.name, path. now rewrite (parse_path_drive _ _ Hd Hs). }
  intros Hin.
  assert (Hpp : is_path_protected true path = true).
  { unfold is_path_protected. rewrite Hparts. apply existsb_exists.
    exists seg. split; [right; apply in_elt|].
    unfold Py.mem. apply existsb_exists. exists seg.
    split; [assumption|apply String.eqb_refl]. }
  split; [exact Hpp|]. split.
  - destruct (concat_around segs1 segs2 seg (String drive ":"))
      as (before & after & Heq & Hafter).
    unfold path, drive_path.
    change (String drive (":\" ++ String.concat "\" (segs1 ++ seg :: segs2)))
      with (String drive ":" ++ "\" ++ String.concat "\" (segs1 ++ seg :: segs2)).
    rewrite Heq. now apply (is_protected_segment before seg after seg).
  - unfold is_safe_to_delete. now rewrite Hpp.
Qed.

Lemma drive_path_protected_witness :
  Pathlib.parts true (drive_path "C" (["Users"] ++ "Windows" :: ["x"]))
  = "C:\" :: (["Users"] ++ "Windows" :: ["x"]).
Proof.
  apply (drive_path_protected "C" ["Users"] ["x"] "Windows"); reflexivity.
Defined.
